(** * Lovetown: one-shot haptic sessions over a Buttplug client

    A shallow embedding of the two entry points of the repository
    ([lovetownConnect] with its positional wrapper [lovetownSend], and
    [lovetownRuntime]) together with the part of their host they talk to: the
    Buttplug client (requests answered later by the server, [deviceadded] and
    [scanningfinished] notifications), [setTimeout], [console.log] and the
    anchors of the document.

    The entry points are asynchronous functions.  Each is written as a [task]:
    the straight-line body of the function, cut at every [await].  The host is
    an event loop over a [state]; what the outside world does (a reply comes
    back, a device is announced, time passes, a timer fires, a link is
    clicked) is an [event], and a session is the fold of [step] over a
    schedule of events.  A task runs to its next [await] without interruption;
    between two turns of the loop anything may happen, in any order.

    What is taken from the host rather than from the repository:
    - a request is answered later, by fulfilment or by rejection, and its
      caller waits for the answer;
    - the client announces devices once its socket is open, which is before
      [connect] returns to its caller, and [connect] may still be rejected
      afterwards; the devices the server knew already are announced when the
      handshake ends, before [connect] returns;
    - a timer's callback runs once, and not before its delay has passed, the
      delay being the 32-bit integer the host reads the number as;
    - the address parser, a parameter of the entry points. *)

From Stdlib Require Import List String Bool Arith NArith ZArith Lia.
From Stdlib Require Import PrimFloat FloatOps SpecFloat.
Import ListNotations.

Local Open Scope string_scope.
Local Open Scope nat_scope.
Local Open Scope list_scope.

(** ** Values *)

(** A JavaScript [number] is an IEEE 754 binary64 value. *)
Definition number : Set := float.
Bind Scope float_scope with number.

(** ToBoolean on a number: [+0], [-0] and [NaN] are falsy. *)
Definition truthy_number (n : number) : bool :=
  negb (PrimFloat.eqb n 0%float || PrimFloat.is_nan n).

(** [vibrate?: number | number[]] *)
Inductive vibrate_value : Set :=
| Speed (n : number)
| Speeds (l : list number).

(** [linear?: number | [number, number][]] *)
Inductive linear_value : Set :=
| Position (n : number)
| Vectors (l : list (number * number)).

(** ToBoolean on the optional fields: [undefined] is falsy, an array is
    always truthy (the empty one too), a number as above.  Each function
    returns the value the guarded branch then reads, or [None] when the test
    fails. *)
Definition truthy_vibrate (v : option vibrate_value) : option vibrate_value :=
  match v with
  | Some (Speed n) => if truthy_number n then v else None
  | Some (Speeds _) => v
  | None => None
  end.

Definition truthy_linear (v : option linear_value) : option linear_value :=
  match v with
  | Some (Position n) => if truthy_number n then v else None
  | Some (Vectors _) => v
  | None => None
  end.

Definition truthy_duration (v : option number) : option number :=
  match v with
  | Some n => if truthy_number n then v else None
  | None => None
  end.

(** [interface LovetownOptions] *)
Record LovetownOptions : Set := {
  connectAddress : string;
  timeout : number;
  vibrate : option vibrate_value;
  linear : option linear_value;
  linearDuration : option number
}.

(** What the code reads of a [ButtplugClientDevice]: the two actuator lists
    (one entry per actuator, here its step count) and, to tell devices apart,
    the index the server gave it. *)
Record ButtplugClientDevice : Set := {
  index : nat;
  vibrateAttributes : list nat;
  linearAttributes : list nat
}.

(** A thrown or rejected value, as [console.log] would print it. *)
Definition error : Set := string.

(** An anchor element of the document. *)
Definition anchor : Set := nat.

(** ** Requests and tasks *)

(** The calls on the client and on a device that return a promise settled by
    the server's reply. *)
Inductive request : Set :=
| Connect (url : string)
| StartScanning
| StopScanning
| Vibrate (device : ButtplugClientDevice) (speed : vibrate_value)
| Linear (device : ButtplugClientDevice) (position : linear_value) (duration : number)
| Stop (device : ButtplugClientDevice).

(** The body of an asynchronous function.  [Await r k] is [await r; k]: a
    rejection leaves the function.  [TryAwait r k h] is
    [try { await r } catch (e) { h e }] followed by [k] when [r] was
    fulfilled; the handlers of this program all end in [return]. *)
Inductive task : Type :=
| Return
| Throw (e : error)
| Await (r : request) (k : task)
| TryAwait (r : request) (k : task) (h : error -> task)
| SetTimeout (callback : task) (delay : number) (k : task)
| ConsoleLog (m : string) (k : task)
| AddDeviceAddedListener (l : ButtplugClientDevice -> task) (k : task)
| AddScanningFinishedListener (l : task) (k : task)
| QuerySelectorAll (k : list anchor -> task)
| AddClickListener (a : anchor) (l : task) (k : task).

(** [await t; k] for a call [t] of an asynchronous function. *)
Fixpoint await_call (t k' : task) : task :=
  match t with
  | Return => k'
  | Throw e => Throw e
  | Await r k => Await r (await_call k k')
  | TryAwait r k h => TryAwait r (await_call k k') (fun e => await_call (h e) k')
  | SetTimeout cb d k => SetTimeout cb d (await_call k k')
  | ConsoleLog m k => ConsoleLog m (await_call k k')
  | AddDeviceAddedListener l k => AddDeviceAddedListener l (await_call k k')
  | AddScanningFinishedListener l k => AddScanningFinishedListener l (await_call k k')
  | QuerySelectorAll k => QuerySelectorAll (fun links => await_call (k links) k')
  | AddClickListener a l k => AddClickListener a l (await_call k k')
  end.

(** ** The host *)

(** Whose promise a running task settles: the entry point's, which the caller
    holds, or a callback's, which nobody holds. *)
Inductive owner : Set := Main | Callback.

Inductive outcome : Set := Fulfilled | Rejected (e : error).

(** A task parked at an [await]. *)
Record suspended : Type := {
  sus_id : nat;
  sus_owner : owner;
  sus_request : request;
  sus_then : task;
  sus_catch : option (error -> task)
}.

Record timer : Type := {
  timer_id : nat;
  armed_at : N;
  delay : number;
  callback : task
}.

(** What an observer of the session sees. *)
Inductive observation : Set :=
| Sent (r : request)
| Logged (m : string).

Record state : Type := {
  clock : N;                                    (* milliseconds *)
  link : bool;                                  (* the socket is open: the client hears the server *)
  connected : bool;                             (* connect() was fulfilled *)
  next_id : nat;
  pending : list suspended;
  next_timer : nat;                             (* timers armed so far *)
  timers : list timer;
  on_deviceadded : list (ButtplugClientDevice -> task);
  on_scanningfinished : list task;
  dom : list anchor;                            (* document.querySelectorAll("a.linkOn") *)
  clicks : list (anchor * task);
  trace : list (N * observation);               (* oldest first, stamped with the clock *)
  result : option outcome;                      (* the entry point's promise *)
  unhandled : list error                        (* rejections nobody caught *)
}.

Definition init : state :=
  {| clock := 0; link := false; connected := false; next_id := 0; pending := []; next_timer := 0;
     timers := []; on_deviceadded := []; on_scanningfinished := []; dom := [];
     clicks := []; trace := []; result := None; unhandled := [] |}.

Definition observe (o : observation) (s : state) : state :=
  {| clock := clock s; link := link s; connected := connected s; next_id := next_id s; pending := pending s;
     next_timer := next_timer s; timers := timers s;
     on_deviceadded := on_deviceadded s; on_scanningfinished := on_scanningfinished s;
     dom := dom s; clicks := clicks s;
     trace := trace s ++ [(clock s, o)];
     result := result s; unhandled := unhandled s |}.

(** The request goes out and the task waits for the reply. *)
Definition suspend (o : owner) (r : request) (k : task) (h : option (error -> task))
    (s : state) : state :=
  {| clock := clock s; link := link s; connected := connected s; next_id := S (next_id s);
     pending := pending s ++ [{| sus_id := next_id s; sus_owner := o; sus_request := r;
                                 sus_then := k; sus_catch := h |}];
     next_timer := next_timer s; timers := timers s;
     on_deviceadded := on_deviceadded s; on_scanningfinished := on_scanningfinished s;
     dom := dom s; clicks := clicks s;
     trace := trace s ++ [(clock s, Sent r)];
     result := result s; unhandled := unhandled s |}.

Definition arm (cb : task) (d : number) (s : state) : state :=
  {| clock := clock s; link := link s; connected := connected s; next_id := next_id s; pending := pending s;
     next_timer := S (next_timer s);
     timers := timers s ++ [{| timer_id := next_timer s; armed_at := clock s;
                               delay := d; callback := cb |}];
     on_deviceadded := on_deviceadded s; on_scanningfinished := on_scanningfinished s;
     dom := dom s; clicks := clicks s; trace := trace s;
     result := result s; unhandled := unhandled s |}.

Definition settle (o : owner) (r : outcome) (s : state) : state :=
  match o, r with
  | Main, _ =>
      {| clock := clock s; link := link s; connected := connected s; next_id := next_id s; pending := pending s;
         next_timer := next_timer s; timers := timers s;
         on_deviceadded := on_deviceadded s; on_scanningfinished := on_scanningfinished s;
         dom := dom s; clicks := clicks s; trace := trace s;
         result := Some r; unhandled := unhandled s |}
  | Callback, Fulfilled => s
  | Callback, Rejected e =>
      {| clock := clock s; link := link s; connected := connected s; next_id := next_id s; pending := pending s;
         next_timer := next_timer s; timers := timers s;
         on_deviceadded := on_deviceadded s; on_scanningfinished := on_scanningfinished s;
         dom := dom s; clicks := clicks s; trace := trace s;
         result := result s; unhandled := unhandled s ++ [e] |}
  end.

Definition listen_deviceadded (l : ButtplugClientDevice -> task) (s : state) : state :=
  {| clock := clock s; link := link s; connected := connected s; next_id := next_id s; pending := pending s;
     next_timer := next_timer s; timers := timers s;
     on_deviceadded := on_deviceadded s ++ [l];
     on_scanningfinished := on_scanningfinished s;
     dom := dom s; clicks := clicks s; trace := trace s;
     result := result s; unhandled := unhandled s |}.

Definition listen_scanningfinished (l : task) (s : state) : state :=
  {| clock := clock s; link := link s; connected := connected s; next_id := next_id s; pending := pending s;
     next_timer := next_timer s; timers := timers s;
     on_deviceadded := on_deviceadded s;
     on_scanningfinished := on_scanningfinished s ++ [l];
     dom := dom s; clicks := clicks s; trace := trace s;
     result := result s; unhandled := unhandled s |}.

Definition listen_click (a : anchor) (l : task) (s : state) : state :=
  {| clock := clock s; link := link s; connected := connected s; next_id := next_id s; pending := pending s;
     next_timer := next_timer s; timers := timers s;
     on_deviceadded := on_deviceadded s; on_scanningfinished := on_scanningfinished s;
     dom := dom s; clicks := clicks s ++ [(a, l)]; trace := trace s;
     result := result s; unhandled := unhandled s |}.

(** Runs a task up to its first [await] (or to its end). *)
Fixpoint exec (o : owner) (t : task) (s : state) : state :=
  match t with
  | Return => settle o Fulfilled s
  | Throw e => settle o (Rejected e) s
  | Await r k => suspend o r k None s
  | TryAwait r k h => suspend o r k (Some h) s
  | SetTimeout cb d k => exec o k (arm cb d s)
  | ConsoleLog m k => exec o k (observe (Logged m) s)
  | AddDeviceAddedListener l k => exec o k (listen_deviceadded l s)
  | AddScanningFinishedListener l k => exec o k (listen_scanningfinished l s)
  | QuerySelectorAll k => exec o (k (dom s)) s
  | AddClickListener a l k => exec o k (listen_click a l s)
  end.

(** The host's contract for a timer: its callback runs once, and not before
    its delay has passed.  [setTimeout] takes the delay as a 32-bit integer
    ([long]): [NaN] and the infinities count as 0, the fraction is dropped,
    the integer is wrapped into [-2^31, 2^31), and a negative delay counts as
    0. *)
Definition integer_part (d : number) : Z :=
  match Prim2SF d with
  | S754_finite negative m e =>
      let magnitude :=
        match e with
        | Z0 => Zpos m
        | Zpos k => (Zpos m * 2 ^ Zpos k)%Z
        | Zneg k => (Zpos m / 2 ^ Zpos k)%Z
        end in
      if negative then (- magnitude)%Z else magnitude
  | _ => 0%Z
  end.

Definition to_long (z : Z) : Z :=
  let x := (z mod 2 ^ 32)%Z in
  if (2 ^ 31 <=? x)%Z then (x - 2 ^ 32)%Z else x.

(** The milliseconds the host waits for a delay of [d]. *)
Definition timer_delay (d : number) : N := Z.to_N (to_long (integer_part d)).

(** The timer armed with delay [d] may fire once [elapsed] milliseconds have
    passed. *)
Definition reached (d : number) (elapsed : N) : bool :=
  (timer_delay d <=? elapsed)%N.

(** [elapsed] whole milliseconds are at least [d], the two compared exactly:
    what "not before [d] milliseconds" reads as when [d] is taken as the
    number it is. *)
Definition at_least (d : number) (elapsed : N) : bool :=
  match Prim2SF d with
  | S754_zero _ => true
  | S754_nan => true
  | S754_infinity negative => negative
  | S754_finite true _ _ => true
  | S754_finite false m Z0 => (Npos m <=? elapsed)%N
  | S754_finite false m (Zpos e) => (Npos m * 2 ^ Npos e <=? elapsed)%N
  | S754_finite false m (Zneg e) => (Npos m <=? elapsed * 2 ^ Npos e)%N
  end.

(** The whole number of milliseconds [d] is, when it is one. *)
Definition whole_ms (d : number) : option N :=
  match Prim2SF d with
  | S754_zero _ => Some 0%N
  | S754_finite false m Z0 => Some (Npos m)
  | S754_finite false m (Zpos e) => Some (Npos m * 2 ^ Npos e)%N
  | S754_finite false m (Zneg e) =>
      if (Npos m mod 2 ^ Npos e =? 0)%N then Some (Npos m / 2 ^ Npos e)%N else None
  | _ => None
  end.

Definition due (t : timer) (now : N) : bool := reached (delay t) (now - armed_at t).

(** What the world outside the program does. *)
Inductive event : Set :=
| Resolved (id : nat) (known : list ButtplugClientDevice)
    (* the reply to request [id] fulfils its promise; [known] are the devices
       the same message lists: the device list that closes a handshake *)
| Failed (id : nat) (e : error)       (* request [id] is rejected *)
| DeviceAdded (d : ButtplugClientDevice)
| ScanningFinished
| Tick (ms : N)                       (* time passes *)
| TimerFired (id : nat)
| Clicked (a : anchor)
| DomChanged (links : list anchor)
| SocketOpened.
    (* the socket of a connect request that still waits is open: from now on
       the client hears the server, though [connect] has not returned and may
       still be rejected *)

Definition with_pending (l : list suspended) (s : state) : state :=
  {| clock := clock s; link := link s; connected := connected s; next_id := next_id s; pending := l;
     next_timer := next_timer s; timers := timers s;
     on_deviceadded := on_deviceadded s; on_scanningfinished := on_scanningfinished s;
     dom := dom s; clicks := clicks s; trace := trace s;
     result := result s; unhandled := unhandled s |}.

Definition with_timers (l : list timer) (s : state) : state :=
  {| clock := clock s; link := link s; connected := connected s; next_id := next_id s; pending := pending s;
     next_timer := next_timer s; timers := l;
     on_deviceadded := on_deviceadded s; on_scanningfinished := on_scanningfinished s;
     dom := dom s; clicks := clicks s; trace := trace s;
     result := result s; unhandled := unhandled s |}.

Definition with_link (b : bool) (s : state) : state :=
  {| clock := clock s; link := b; connected := connected s; next_id := next_id s; pending := pending s;
     next_timer := next_timer s; timers := timers s;
     on_deviceadded := on_deviceadded s; on_scanningfinished := on_scanningfinished s;
     dom := dom s; clicks := clicks s; trace := trace s;
     result := result s; unhandled := unhandled s |}.

Definition with_connected (b : bool) (s : state) : state :=
  {| clock := clock s; link := link s; connected := b; next_id := next_id s;
     pending := pending s;
     next_timer := next_timer s; timers := timers s;
     on_deviceadded := on_deviceadded s; on_scanningfinished := on_scanningfinished s;
     dom := dom s; clicks := clicks s; trace := trace s;
     result := result s; unhandled := unhandled s |}.

Definition with_clock (n : N) (s : state) : state :=
  {| clock := n; link := link s; connected := connected s; next_id := next_id s; pending := pending s;
     next_timer := next_timer s; timers := timers s;
     on_deviceadded := on_deviceadded s; on_scanningfinished := on_scanningfinished s;
     dom := dom s; clicks := clicks s; trace := trace s;
     result := result s; unhandled := unhandled s |}.

Definition with_dom (l : list anchor) (s : state) : state :=
  {| clock := clock s; link := link s; connected := connected s; next_id := next_id s; pending := pending s;
     next_timer := next_timer s; timers := timers s;
     on_deviceadded := on_deviceadded s; on_scanningfinished := on_scanningfinished s;
     dom := l; clicks := clicks s; trace := trace s;
     result := result s; unhandled := unhandled s |}.

Definition is_connect (r : request) : bool :=
  match r with Connect _ => true | _ => false end.

(** The client emits [deviceadded]: every listener is called with the device,
    in the order of registration.  The client hears of devices once its socket
    is open, which may be before [connect] returns. *)
Definition emit_deviceadded (d : ButtplugClientDevice) (s : state) : state :=
  if link s
  then fold_left (fun s' l => exec Callback (l d) s') (on_deviceadded s) s
  else s.

Definition emit_scanningfinished (s : state) : state :=
  if link s
  then fold_left (fun s' l => exec Callback l s') (on_scanningfinished s) s
  else s.

Definition emit_click (a : anchor) (s : state) : state :=
  fold_left (fun s' al => if Nat.eqb (fst al) a then exec Callback (snd al) s' else s')
            (clicks s) s.

Definition waits_for (id : nat) (p : suspended) : bool := Nat.eqb (sus_id p) id.
Definition has_id (id : nat) (t : timer) : bool := Nat.eqb (timer_id t) id.

(** One turn of the event loop.  An event that cannot happen in the state (a
    reply to a request that is not waiting, a timer that is not armed or not
    yet due) changes nothing. *)
Definition step (e : event) (s : state) : state :=
  match e with
  | Resolved id known =>
      match find (waits_for id) (pending s) with
      | None => s
      | Some p =>
          let s1 := with_pending (filter (fun q => negb (waits_for id q)) (pending s)) s in
          let s2 := if is_connect (sus_request p)
                    then with_connected true (with_link true s1) else s1 in
          let s3 := fold_left (fun s' d => emit_deviceadded d s') known s2 in
          exec (sus_owner p) (sus_then p) s3
      end
  | Failed id err =>
      match find (waits_for id) (pending s) with
      | None => s
      | Some p =>
          let s1 := with_pending (filter (fun q => negb (waits_for id q)) (pending s)) s in
          match sus_catch p with
          | Some h => exec (sus_owner p) (h err) s1
          | None => settle (sus_owner p) (Rejected err) s1
          end
      end
  | DeviceAdded d => emit_deviceadded d s
  | ScanningFinished => emit_scanningfinished s
  | Tick ms => with_clock (clock s + ms) s
  | TimerFired id =>
      match find (has_id id) (timers s) with
      | None => s
      | Some t =>
          if due t (clock s)
          then exec Callback (callback t)
                    (with_timers (filter (fun u => negb (has_id id u)) (timers s)) s)
          else s
      end
  | Clicked a => emit_click a s
  | DomChanged links => with_dom links s
  | SocketOpened =>
      if existsb (fun p => is_connect (sus_request p)) (pending s)
      then with_link true s else s
  end.

Definition steps (sched : list event) (s : state) : state :=
  fold_left (fun s' e => step e s') sched s.

(** A session: the entry point is called in a fresh host, then the world
    moves. *)
Definition run (entry : task) (sched : list event) : state :=
  steps sched (exec Main entry init).

(** ** The program *)

Section Program.

(** [new URL(s).toString()]: the serialised address, or [None] when the
    constructor throws.  The parser belongs to the host. *)
Variable new_URL : string -> option string.

(** The [deviceadded] listener of [lovetownConnect]. *)
Definition deviceadded_listener (cxt : LovetownOptions) (device : ButtplugClientDevice)
    : task :=
  let stop := Await (Stop device) Return in
  let finish := Await StopScanning Return in
  match truthy_vibrate (vibrate cxt) with
  | Some speed =>
      if 0 <? List.length (vibrateAttributes device)
      then Await (Vibrate device speed) (SetTimeout stop (timeout cxt) finish)
      else finish
  | None =>
      match truthy_linear (linear cxt), truthy_duration (linearDuration cxt) with
      | Some position, Some duration =>
          if 0 <? List.length (linearAttributes device)
          then Await (Linear device position duration) (SetTimeout stop (timeout cxt) finish)
          else finish
      | _, _ => finish
      end
  end.

Definition scanningfinished_listener : task := ConsoleLog "Scanning Finished" Return.

Definition invalid_url : error := "TypeError: Invalid URL".

Definition lovetownConnect (cxt : LovetownOptions) : task :=
  match new_URL (connectAddress cxt) with
  | None => Throw invalid_url
  | Some connection_address =>
      AddDeviceAddedListener (deviceadded_listener cxt)
        (AddScanningFinishedListener scanningfinished_listener
           (TryAwait (Connect connection_address)
                     (Await StartScanning Return)
                     (fun e => ConsoleLog e Return)))
  end.

Definition lovetownSend (connectAddress : string) (timeout : number)
    (vibrate : option number) (linear : option linear_value)
    (linearDuration : option number) : task :=
  await_call
    (lovetownConnect {| connectAddress := connectAddress;
                        timeout := timeout;
                        vibrate := option_map Speed vibrate;
                        linear := linear;
                        linearDuration := linearDuration |})
    Return.

(** The click handler [lovetownRuntime] puts on a link for a device. *)
Definition click_listener (device : ButtplugClientDevice) : task :=
  Await (Vibrate device (Speed 1%float))
        (SetTimeout (Await (Stop device) Return) 3000%float Return).

(** The [deviceadded] listener of [lovetownRuntime]. *)
Definition runtime_listener (device : ButtplugClientDevice) : task :=
  let finish := Await StopScanning Return in
  if 0 <? List.length (vibrateAttributes device)
  then QuerySelectorAll (fun sex_action_links =>
         fold_right (fun sex_action_link k =>
                       AddClickListener sex_action_link (click_listener device) k)
                    finish sex_action_links)
  else finish.

Definition lovetownRuntime (connectAddress : string) : task :=
  match new_URL connectAddress with
  | None => Throw invalid_url
  | Some connection_address =>
      AddDeviceAddedListener runtime_listener
        (AddScanningFinishedListener scanningfinished_listener
           (TryAwait (Connect connection_address)
                     (Await StartScanning Return)
                     (fun e => ConsoleLog e Return)))
  end.

End Program.

(** A stand-in for the host's parser, to run sessions on: it takes the
    websocket addresses [ws://...] and [wss://...] with something after the
    slashes, leaves them as they are, and refuses everything else.  It is not
    the host's parser; the theorems hold for any parser. *)
Definition sample_URL (s : string) : option string :=
  if (String.prefix "ws://" s && (5 <? String.length s))
     || (String.prefix "wss://" s && (6 <? String.length s))
  then Some s else None.

Definition toy : ButtplugClientDevice :=
  {| index := 0; vibrateAttributes := [20]; linearAttributes := [] |}.
Definition toy2 : ButtplugClientDevice :=
  {| index := 1; vibrateAttributes := [20; 20]; linearAttributes := [] |}.
Definition stroker : ButtplugClientDevice :=
  {| index := 2; vibrateAttributes := []; linearAttributes := [100] |}.
Definition gamepad : ButtplugClientDevice :=
  {| index := 3; vibrateAttributes := []; linearAttributes := [] |}.

Definition intiface : string := "ws://localhost:12345/buttplug".

(** The number JavaScript reads the literal [0.7] as. *)
Definition seven_tenths : number := 0x1.6666666666666p-1%float.

Definition vibrate_request (speed timeout : number) : LovetownOptions :=
  {| connectAddress := intiface; timeout := timeout; vibrate := Some (Speed speed);
     linear := None; linearDuration := None |}.

Definition linear_request (vib : option vibrate_value) (dur : option number)
    : LovetownOptions :=
  {| connectAddress := intiface; timeout := 2000; vibrate := vib;
     linear := Some (Vectors [(0.5, 0); (1, 500)]%float); linearDuration := dur |}.

(** Both payloads at once, the vibration one falsy. *)
Definition zero_vibrate_request : LovetownOptions :=
  {| connectAddress := intiface; timeout := 3000; vibrate := Some (Speed 0);
     linear := Some (Position 0.5); linearDuration := Some 1000%float |}.

(** ** Reading a trace *)

(** The device an action command drives. *)
Definition target (r : request) : option ButtplugClientDevice :=
  match r with
  | Vibrate d _ => Some d
  | Linear d _ _ => Some d
  | _ => None
  end.

Definition is_action (r : request) : bool :=
  match r with
  | Vibrate _ _ | Linear _ _ _ => true
  | _ => false
  end.

Definition action_sent (x : N * observation) : bool :=
  match snd x with
  | Sent r => is_action r
  | Logged _ => false
  end.

(** Action commands in a trace. *)
Definition dispatches (tr : list (N * observation)) : nat :=
  List.length (filter action_sent tr).

(** Devices an event announces to the client. *)
Definition announced (e : event) : nat :=
  match e with
  | Resolved _ known => List.length known
  | DeviceAdded _ => 1
  | _ => 0
  end.

Definition announcements (sched : list event) : nat :=
  fold_right (fun e n => announced e + n) 0 sched.

(** An action command for [d] went out at [t0]. *)
Definition dispatched_to (tr : list (N * observation)) (d : ButtplugClientDevice)
    (t0 : N) : Prop :=
  exists r, In (t0, Sent r) tr /\ target r = Some d.

(** The events a session sees, without their stamps. *)
Definition observations (s : state) : list observation := map snd (trace s).

(** The requests a session sent, oldest first. *)
Definition requests (s : state) : list request :=
  flat_map (fun x => match snd x with Sent r => [r] | Logged _ => [] end) (trace s).

Definition is_vibrate (r : request) : bool :=
  match r with Vibrate _ _ => true | _ => false end.

Definition is_linear (r : request) : bool :=
  match r with Linear _ _ _ => true | _ => false end.



(** The same options with no [vibrate] field. *)
Definition without_vibrate (cxt : LovetownOptions) : LovetownOptions :=
  {| connectAddress := connectAddress cxt; timeout := timeout cxt; vibrate := None;
     linear := linear cxt; linearDuration := linearDuration cxt |}.

(** ** The design's vocabulary *)

(** The tail of the listener, in pieces: the timer's callback, the closing
    [stopScanning], and what follows an accepted action command. *)
Definition stop_callback (d : ButtplugClientDevice) : task := Await (Stop d) Return.
Definition finish : task := Await StopScanning Return.
Definition after_dispatch (cxt : LovetownOptions) (d : ButtplugClientDevice) : task :=
  SetTimeout (stop_callback d) (timeout cxt) finish.

(** The verdicts of the design's capability classifier, with what the
    dispatcher needs.  The source has no such function: [classify] names the
    decision the nested tests of the listener take, and [listener_classify]
    below shows the listener is [dispatch] of it. *)
Inductive capability : Set :=
| SupportsVibration (speed : vibrate_value)
| SupportsLinear (position : linear_value) (duration : number)
| Unsupported.

Definition classify (cxt : LovetownOptions) (d : ButtplugClientDevice) : capability :=
  match truthy_vibrate (vibrate cxt) with
  | Some speed =>
      if 0 <? List.length (vibrateAttributes d) then SupportsVibration speed
      else Unsupported
  | None =>
      match truthy_linear (linear cxt), truthy_duration (linearDuration cxt) with
      | Some position, Some duration =>
          if 0 <? List.length (linearAttributes d) then SupportsLinear position duration
          else Unsupported
      | _, _ => Unsupported
      end
  end.

(** The request a listener sends first for a verdict. *)
Definition first_request (d : ButtplugClientDevice) (c : capability) : request :=
  match c with
  | SupportsVibration speed => Vibrate d speed
  | SupportsLinear position duration => Linear d position duration
  | Unsupported => StopScanning
  end.

Definition dispatch (cxt : LovetownOptions) (d : ButtplugClientDevice) (c : capability)
    : task :=
  match c with
  | Unsupported => finish
  | _ => Await (first_request d c) (after_dispatch cxt d)
  end.

(** A state in which nothing can happen any more: no connection, nothing
    waiting, no timer, no click handler. *)
Definition dead (s : state) : Prop :=
  link s = false /\ pending s = [] /\ timers s = [] /\ clicks s = [].



(** ** The invariant of a [lovetownConnect] session *)

Section Invariant.

Variable cxt : LovetownOptions.

(** What the two tests of the listener have established when an action
    command goes out. *)
Definition eligible (r : request) : Prop :=
  match r with
  | Vibrate d speed =>
      truthy_vibrate (vibrate cxt) = Some speed /\ vibrateAttributes d <> []
  | Linear d position duration =>
      truthy_vibrate (vibrate cxt) = None
      /\ truthy_linear (linear cxt) = Some position
      /\ truthy_duration (linearDuration cxt) = Some duration
      /\ linearAttributes d <> []
  | _ => True
  end.

Definition entry_ok (tr : list (N * observation)) (x : N * observation) : Prop :=
  match snd x with
  | Sent (Stop d) =>
      exists t0, dispatched_to tr d t0 /\ (t0 <= fst x)%N
                 /\ reached (timeout cxt) (fst x - t0) = true
  | Sent r => eligible r
  | Logged _ => True
  end.

Definition parked_ok (tr : list (N * observation)) (p : suspended) : Prop :=
  match sus_request p with
  | Connect _ =>
      sus_owner p = Main /\ sus_then p = Await StartScanning Return
      /\ sus_catch p = Some (fun e => ConsoleLog e Return)
  | Vibrate d _ | Linear d _ _ =>
      sus_owner p = Callback /\ sus_then p = after_dispatch cxt d /\ sus_catch p = None
      /\ exists t0, dispatched_to tr d t0
  | _ => sus_then p = Return /\ sus_catch p = None
  end.

Definition timer_ok (tr : list (N * observation)) (t : timer) : Prop :=
  exists d, callback t = stop_callback d /\ delay t = timeout cxt
            /\ exists t0, dispatched_to tr d t0 /\ (t0 <= armed_at t)%N.

Record Inv (s : state) : Prop := {
  inv_deviceadded : on_deviceadded s = [deviceadded_listener cxt];
  inv_scanningfinished :
    Forall (eq scanningfinished_listener) (on_scanningfinished s);
  inv_clicks : clicks s = [];
  inv_pending : Forall (parked_ok (trace s)) (pending s);
  inv_timers : Forall (timer_ok (trace s)) (timers s);
  inv_trace : Forall (entry_ok (trace s)) (trace s);
  inv_stamps : Forall (fun x => (fst x <= clock s)%N) (trace s)
}.

End Invariant.

(** The trace of [s'] continues that of [s] with at most [n] action commands. *)
Definition grows (n : nat) (s s' : state) : Prop :=
  exists new, trace s' = trace s ++ new /\ dispatches new <= n.

(** States between which no time passed, no timer was armed and the
    connection did not change. *)
Definition calm (s s' : state) : Prop :=
  clock s' = clock s /\ next_timer s' = next_timer s /\ link s' = link s
  /\ timers s' = timers s.

(** ** Counting, and the order of a session *)

(** Requests in a trace that satisfy [f]. *)
Definition count_sent (f : request -> bool) (tr : list (N * observation)) : nat :=
  List.length
    (filter (fun x => match snd x with Sent r => f r | Logged _ => false end) tr).

Definition is_start (r : request) : bool :=
  match r with StartScanning => true | _ => false end.

Definition is_stop (r : request) : bool :=
  match r with Stop _ => true | _ => false end.

(** Action commands waiting for the server's answer. *)
Definition parked_actions (l : list suspended) : nat :=
  List.length (filter (fun p => is_action (sus_request p)) l).

(** Whose task waits for which request: the entry point waits for [connect]
    (request 0, while [connect] has not been fulfilled) and then for
    [startScanning]; everything else is awaited in a callback. *)
Definition owner_ok (up : bool) (p : suspended) : Prop :=
  match sus_request p with
  | Connect _ => sus_id p = 0 /\ up = false
  | StartScanning => sus_owner p = Main /\ up = true
  | _ => sus_owner p = Callback
  end.

(** A second invariant of [lovetownConnect] sessions, on counts: one connect
    request; [startScanning] sent exactly when [connect] was fulfilled; every
    [stop] sent, timer armed and action command still waiting is paid for by
    an action command of its own; and one [scanningfinished] listener. *)
Record Order (s : state) : Prop := {
  ord_connects : count_sent is_connect (trace s) = 1;
  ord_starts : count_sent is_start (trace s) = if connected s then 1 else 0;
  ord_parked : Forall (owner_ok (connected s)) (pending s);
  ord_stops :
    count_sent is_stop (trace s) + List.length (timers s) + parked_actions (pending s)
    <= dispatches (trace s);
  ord_scanningfinished : on_scanningfinished s = [scanningfinished_listener]
}.

(** What announcing devices to the listener of [lovetownConnect] adds to a
    state: requests that are neither connect, start nor stop, parked in
    callbacks, one parked action per action command sent. *)
Definition adds (s s' : state) : Prop :=
  exists new newp,
    trace s' = trace s ++ new /\ pending s' = pending s ++ newp
    /\ count_sent is_connect new = 0 /\ count_sent is_start new = 0
    /\ count_sent is_stop new = 0
    /\ Forall (fun p => forall up, owner_ok up p) newp
    /\ parked_actions newp = dispatches new
    /\ timers s' = timers s /\ link s' = link s
    /\ on_scanningfinished s' = on_scanningfinished s
    /\ connected s' = connected s /\ result s' = result s.

(** ** The invariant of a [lovetownRuntime] session *)

(** What follows an accepted [vibrate] in a click handler. *)
Definition after_click (d : ButtplugClientDevice) : task :=
  SetTimeout (stop_callback d) 3000 Return.

(** A [vibrate(1)] for [d] went out at [t0]. *)
Definition vibrated (tr : list (N * observation)) (d : ButtplugClientDevice) (t0 : N)
    : Prop :=
  In (t0, Sent (Vibrate d (Speed 1))) tr.

Definition runtime_entry_ok (tr : list (N * observation)) (x : N * observation) : Prop :=
  match snd x with
  | Sent (Vibrate d speed) => speed = Speed 1 /\ vibrateAttributes d <> []
  | Sent (Linear _ _ _) => False
  | Sent (Stop d) =>
      exists t0, vibrated tr d t0 /\ (t0 <= fst x)%N
                 /\ reached 3000 (fst x - t0) = true
  | _ => True
  end.

Definition runtime_parked_ok (tr : list (N * observation)) (p : suspended) : Prop :=
  match sus_request p with
  | Connect _ =>
      sus_owner p = Main /\ sus_then p = Await StartScanning Return
      /\ sus_catch p = Some (fun e => ConsoleLog e Return)
  | StartScanning => sus_owner p = Main /\ sus_then p = Return /\ sus_catch p = None
  | Vibrate d _ =>
      sus_owner p = Callback /\ sus_then p = after_click d /\ sus_catch p = None
      /\ exists t0, vibrated tr d t0
  | Linear _ _ _ => False
  | _ => sus_owner p = Callback /\ sus_then p = Return /\ sus_catch p = None
  end.

Definition runtime_timer_ok (tr : list (N * observation)) (t : timer) : Prop :=
  exists d, callback t = stop_callback d /\ delay t = 3000%float
            /\ exists t0, vibrated tr d t0 /\ (t0 <= armed_at t)%N.

(** A click handler the program registered: the handler of a device that has
    a vibration actuator. *)
Definition handler_ok (h : anchor * task) : Prop :=
  exists d, snd h = click_listener d /\ vibrateAttributes d <> [].

Record RInv (s : state) : Prop := {
  rinv_deviceadded : on_deviceadded s = [runtime_listener];
  rinv_scanningfinished : on_scanningfinished s = [scanningfinished_listener];
  rinv_clicks : Forall handler_ok (clicks s);
  rinv_pending : Forall (runtime_parked_ok (trace s)) (pending s);
  rinv_timers : Forall (runtime_timer_ok (trace s)) (timers s);
  rinv_trace : Forall (runtime_entry_ok (trace s)) (trace s);
  rinv_stamps : Forall (fun x => (fst x <= clock s)%N) (trace s)
}.

(** The handlers [lovetownRuntime] puts on the anchors [links] for [d]. *)
Definition handlers_for (d : ButtplugClientDevice) (links : list anchor)
    : list (anchor * task) :=
  map (fun a => (a, click_listener d)) links.

Definition with_clicks (l : list (anchor * task)) (s : state) : state :=
  {| clock := clock s; link := link s; connected := connected s; next_id := next_id s; pending := pending s;
     next_timer := next_timer s; timers := timers s;
     on_deviceadded := on_deviceadded s; on_scanningfinished := on_scanningfinished s;
     dom := dom s; clicks := l; trace := trace s;
     result := result s; unhandled := unhandled s |}.

(** The state after the listener of [lovetownRuntime] was told of [d]: one
    more handler on every anchor of the document when [d] vibrates. *)
Definition registered (d : ButtplugClientDevice) (s : state) : state :=
  if 0 <? List.length (vibrateAttributes d)
  then with_clicks (clicks s ++ handlers_for d (dom s)) s
  else s.

(** What announcing devices to the listener of [lovetownRuntime] adds to a
    state: [stopScanning] requests, parked, and click handlers; no time
    passes and no timer is armed. *)
Definition announces (s s' : state) : Prop :=
  exists new newp newc,
    trace s' = trace s ++ new /\ pending s' = pending s ++ newp
    /\ clicks s' = clicks s ++ newc
    /\ Forall (fun x => snd x = Sent StopScanning) new
    /\ Forall (fun p => sus_request p = StopScanning) newp
    /\ timers s' = timers s /\ next_timer s' = next_timer s
    /\ clock s' = clock s /\ link s' = link s.

(** The handlers registered on an anchor. *)
Definition handlers_on (a : anchor) (s : state) : list (anchor * task) :=
  filter (fun h => Nat.eqb (fst h) a) (clicks s).

Definition is_click (e : event) : bool :=
  match e with Clicked _ => true | _ => false end.

(** Nothing was ever commanded: no action command sent or waiting, no timer
    armed. *)
Definition untouched (s : state) : Prop :=
  dispatches (trace s) = 0 /\ parked_actions (pending s) = 0 /\ timers s = []
  /\ next_timer s = 0.

(** ** Callbacks and the entry point *)








(** ** The two sides of a session *)

(** The requests in a trace, oldest first. *)
Definition sent (tr : list (N * observation)) : list request :=
  flat_map (fun x => match snd x with Sent r => [r] | Logged _ => [] end) tr.




(** * Properties *)

(** ** The timer contract is monotone in the time waited *)

Lemma reached_mono (d : number) (n m : N) :
  (n <= m)%N -> reached d n = true -> reached d m = true.
Proof. unfold reached. rewrite !N.leb_le. lia. Qed.

Lemma timer_delay_3000 : timer_delay 3000 = 3000%N.
Proof. vm_compute. reflexivity. Qed.

Lemma reached_3000 (n : N) : reached 3000 n = (3000 <=? n)%N.
Proof. unfold reached. rewrite timer_delay_3000. reflexivity. Qed.

(** ** Generic facts about the host *)

Lemma dispatches_app (a b : list (N * observation)) :
  dispatches (a ++ b) = dispatches a + dispatches b.
Proof. unfold dispatches. rewrite filter_app, length_app. reflexivity. Qed.

Lemma dispatched_to_mono (tr tr' : list (N * observation)) d t0 :
  incl tr tr' -> dispatched_to tr d t0 -> dispatched_to tr' d t0.
Proof. intros Hi (r & Hin & Ht). exists r. split; [apply Hi, Hin | exact Ht]. Qed.

Lemma dead_step (e : event) (s : state) :
  dead s ->
  dead (step e s) /\ trace (step e s) = trace s /\ result (step e s) = result s
  /\ next_timer (step e s) = next_timer s /\ unhandled (step e s) = unhandled s
  /\ next_id (step e s) = next_id s.
Proof.
  intros (Hl & Hp & Ht & Hc). unfold dead.
  destruct e; simpl; unfold emit_deviceadded, emit_scanningfinished, emit_click;
    rewrite ?Hl, ?Hp, ?Ht, ?Hc; simpl; auto 12.
Qed.

Lemma dead_steps (sched : list event) (s : state) :
  dead s ->
  dead (steps sched s) /\ trace (steps sched s) = trace s
  /\ result (steps sched s) = result s
  /\ next_timer (steps sched s) = next_timer s
  /\ unhandled (steps sched s) = unhandled s
  /\ next_id (steps sched s) = next_id s.
Proof.
  revert s. induction sched as [|e sched IH]; intros s Hd; simpl.
  - auto 10.
  - destruct (dead_step e s Hd) as (Hd' & Etr & Er & En & Eu & Ei).
    destruct (IH _ Hd') as (Hd'' & Etr' & Er' & En' & Eu' & Ei').
    repeat split; try apply Hd''; congruence.
Qed.

Lemma steps_cons e l s : steps (e :: l) s = steps l (step e s).
Proof. reflexivity. Qed.

(** Nor does such a state ever get connected. *)
Lemma dead_connected (sched : list event) (s : state) :
  dead s -> connected (steps sched s) = connected s.
Proof.
  revert s. induction sched as [|e sched IH]; intros s Hd; [reflexivity|].
  rewrite steps_cons, (IH _ (proj1 (dead_step e s Hd))).
  destruct Hd as (Hl & Hp & Ht & Hc).
  destruct e; simpl; unfold emit_deviceadded, emit_scanningfinished, emit_click;
    rewrite ?Hl, ?Hp, ?Ht, ?Hc; simpl; auto.
Qed.


(** Running a task never drops a timer. *)
Lemma exec_keeps_timers (o : owner) (t : task) :
  forall s x, In x (timers s) -> In x (timers (exec o t s)).
Proof.
  induction t as [|e|r k IHk|r k IHk h IHh|cb IHcb d k IHk|m k IHk|l IHl k IHk
                  |l IHl k IHk|k IHk|a l IHl k IHk]; intros s x Hx; simpl.
  - destruct o; simpl; exact Hx.
  - destruct o; simpl; exact Hx.
  - exact Hx.
  - exact Hx.
  - apply IHk. simpl. apply in_or_app. left. exact Hx.
  - apply IHk. exact Hx.
  - apply IHk. exact Hx.
  - apply IHk. exact Hx.
  - apply IHk. exact Hx.
  - apply IHk. exact Hx.
Qed.

Lemma fold_exec_keeps_timers {A : Type} (f : A -> state -> state) (l : list A) :
  (forall a s x, In x (timers s) -> In x (timers (f a s))) ->
  forall s x, In x (timers s) -> In x (timers (fold_left (fun s' a => f a s') l s)).
Proof.
  intros Hf. induction l as [|a l IH]; intros s x Hx; simpl.
  - exact Hx.
  - apply IH, Hf, Hx.
Qed.

Lemma emit_deviceadded_keeps_timers d s x :
  In x (timers s) -> In x (timers (emit_deviceadded d s)).
Proof.
  unfold emit_deviceadded. destruct (link s); [|auto].
  apply (fold_exec_keeps_timers (fun l s' => exec Callback (l d) s')).
  intros a s' y. apply exec_keeps_timers.
Qed.

(** No event but its own firing takes an armed timer away. *)
Lemma step_keeps_timers (e : event) (s : state) (x : timer) :
  In x (timers s) ->
  (forall id, e = TimerFired id -> has_id id x = false) ->
  In x (timers (step e s)).
Proof.
  intros Hx Hne. destruct e as [id known|id err|d| |ms|id|a|links| ]; simpl.
  - destruct (find (waits_for id) (pending s)) as [p|]; [|exact Hx].
    apply exec_keeps_timers.
    apply (fold_exec_keeps_timers emit_deviceadded).
    + intros; now apply emit_deviceadded_keeps_timers.
    + destruct (is_connect (sus_request p)); exact Hx.
  - destruct (find (waits_for id) (pending s)) as [p|]; [|exact Hx].
    destruct (sus_catch p) as [h|].
    + apply exec_keeps_timers. exact Hx.
    + destruct (sus_owner p); exact Hx.
  - now apply emit_deviceadded_keeps_timers.
  - unfold emit_scanningfinished. destruct (link s); [|exact Hx].
    apply (fold_exec_keeps_timers (fun l s' => exec Callback l s')); [|exact Hx].
    intros a s' y. apply exec_keeps_timers.
  - exact Hx.
  - destruct (find (has_id id) (timers s)) as [t|]; [|exact Hx].
    destruct (due t (clock s)); [|exact Hx].
    apply exec_keeps_timers. simpl. apply filter_In. split; [exact Hx|].
    rewrite (Hne id eq_refl). reflexivity.
  - unfold emit_click.
    apply (fold_exec_keeps_timers
             (fun al s' => if Nat.eqb (fst al) a then exec Callback (snd al) s' else s'));
      [|exact Hx].
    intros al s' y Hy. destruct (Nat.eqb (fst al) a); [apply exec_keeps_timers|]; exact Hy.
  - exact Hx.
  - destruct (existsb _ _); exact Hx.
Qed.

(** ** The invariant of a [lovetownConnect] session *)

Section Session.

Variable new_URL : string -> option string.
Variable cxt : LovetownOptions.

Lemma grows_refl s : grows 0 s s.
Proof. exists []. rewrite app_nil_r. split; [reflexivity | apply Nat.le_refl]. Qed.

Lemma grows_same n s s' : trace s' = trace s -> grows n s s'.
Proof.
  intros E. exists []. rewrite app_nil_r. split; [exact E | apply Nat.le_0_l].
Qed.

Lemma grows_trans n m s s' s'' :
  grows n s s' -> grows m s' s'' -> grows (n + m) s s''.
Proof.
  intros (a & Ea & La) (b & Eb & Lb). exists (a ++ b). split.
  - rewrite Eb, Ea, app_assoc. reflexivity.
  - rewrite dispatches_app. lia.
Qed.

Lemma grows_le n m s s' : n <= m -> grows n s s' -> grows m s s'.
Proof. intros L (a & Ea & La). exists a. split; [exact Ea | lia]. Qed.

Lemma grows_incl n s s' : grows n s s' -> incl (trace s) (trace s').
Proof. intros (a & Ea & _). rewrite Ea. apply incl_appl, incl_refl. Qed.

Lemma entry_ok_mono tr tr' x : incl tr tr' -> entry_ok cxt tr x -> entry_ok cxt tr' x.
Proof.
  intros Hi. unfold entry_ok. destruct (snd x) as [r|m]; [|auto].
  destruct r; auto.
  intros (t0 & Hd & Hle & Hr). exists t0.
  split; [eapply dispatched_to_mono; eauto | auto].
Qed.

Lemma parked_ok_mono tr tr' p : incl tr tr' -> parked_ok cxt tr p -> parked_ok cxt tr' p.
Proof.
  intros Hi. unfold parked_ok. destruct (sus_request p); auto;
    intros (Ho & Hk & Hc & t0 & Hd); repeat split; auto;
    exists t0; eapply dispatched_to_mono; eauto.
Qed.

Lemma timer_ok_mono tr tr' t : incl tr tr' -> timer_ok cxt tr t -> timer_ok cxt tr' t.
Proof.
  intros Hi (d & Hc & Hd & t0 & Hdisp & Hle). exists d. repeat split; auto.
  exists t0. split; [eapply dispatched_to_mono; eauto | exact Hle].
Qed.

Lemma Forall_mono {A : Type} (P Q : A -> Prop) (l : list A) :
  (forall a, P a -> Q a) -> Forall P l -> Forall Q l.
Proof. intros H F. eapply Forall_impl; eauto. Qed.

(** *** The primitive moves keep the invariant *)

Lemma inv_suspend o r k h s :
  Inv cxt s ->
  entry_ok cxt (trace s ++ [(clock s, Sent r)]) (clock s, Sent r) ->
  parked_ok cxt (trace s ++ [(clock s, Sent r)])
            {| sus_id := next_id s; sus_owner := o; sus_request := r;
               sus_then := k; sus_catch := h |} ->
  Inv cxt (suspend o r k h s).
Proof.
  intros [Hd Hf Hc Hp Ht Htr Hst] He Hk.
  assert (Hi : incl (trace s) (trace s ++ [(clock s, Sent r)]))
    by apply incl_appl, incl_refl.
  constructor; simpl; auto.
  - apply Forall_app. split; [|constructor; [exact Hk | constructor]].
    eapply Forall_mono; [|exact Hp]. intros a. now apply parked_ok_mono.
  - eapply Forall_mono; [|exact Ht]. intros a. now apply timer_ok_mono.
  - apply Forall_app. split; [|constructor; [exact He | constructor]].
    eapply Forall_mono; [|exact Htr]. intros a. now apply entry_ok_mono.
  - apply Forall_app. split; [exact Hst|].
    constructor; [simpl; apply N.le_refl | constructor].
Qed.

Lemma grows_suspend o r k h s :
  grows (if is_action r then 1 else 0) s (suspend o r k h s).
Proof.
  exists [(clock s, Sent r)]. split; [reflexivity|].
  unfold dispatches, action_sent. simpl. destruct (is_action r); simpl; lia.
Qed.

Lemma inv_arm cb d s :
  Inv cxt s ->
  timer_ok cxt (trace s) {| timer_id := next_timer s; armed_at := clock s;
                        delay := d; callback := cb |} ->
  Inv cxt (arm cb d s).
Proof.
  intros [Hd Hf Hc Hp Ht Htr Hst] Hk. constructor; simpl; auto.
  apply Forall_app. split; [exact Ht | constructor; [exact Hk | constructor]].
Qed.

Lemma inv_settle o r s : Inv cxt s -> Inv cxt (settle o r s).
Proof.
  intros [Hd Hf Hc Hp Ht Htr Hst]. destruct o, r; constructor; simpl; auto.
Qed.

Lemma trace_settle o r s : trace (settle o r s) = trace s.
Proof. destruct o, r; reflexivity. Qed.

Lemma inv_log m s : Inv cxt s -> Inv cxt (observe (Logged m) s).
Proof.
  intros [Hd Hf Hc Hp Ht Htr Hst].
  assert (Hi : incl (trace s) (trace s ++ [(clock s, Logged m)]))
    by apply incl_appl, incl_refl.
  constructor; simpl; auto.
  - eapply Forall_mono; [|exact Hp]. intros a. now apply parked_ok_mono.
  - eapply Forall_mono; [|exact Ht]. intros a. now apply timer_ok_mono.
  - apply Forall_app. split; [|constructor; [exact I | constructor]].
    eapply Forall_mono; [|exact Htr]. intros a. now apply entry_ok_mono.
  - apply Forall_app. split; [exact Hst|].
    constructor; [simpl; apply N.le_refl | constructor].
Qed.

Lemma grows_log m s : grows 0 s (observe (Logged m) s).
Proof. exists [(clock s, Logged m)]. split; [reflexivity | apply Nat.le_refl]. Qed.

Lemma inv_with_pending l s :
  Inv cxt s -> incl l (pending s) -> Inv cxt (with_pending l s).
Proof.
  intros [Hd Hf Hc Hp Ht Htr Hst] Hi. constructor; simpl; auto.
  apply Forall_forall. intros p Hin.
  exact (proj1 (Forall_forall _ _) Hp p (Hi p Hin)).
Qed.

Lemma inv_with_timers l s :
  Inv cxt s -> incl l (timers s) -> Inv cxt (with_timers l s).
Proof.
  intros [Hd Hf Hc Hp Ht Htr Hst] Hi. constructor; simpl; auto.
  apply Forall_forall. intros p Hin.
  exact (proj1 (Forall_forall _ _) Ht p (Hi p Hin)).
Qed.

Lemma inv_with_link b s : Inv cxt s -> Inv cxt (with_link b s).
Proof. intros [Hd Hf Hc Hp Ht Htr Hst]. constructor; simpl; auto. Qed.

Lemma inv_with_connected b s : Inv cxt s -> Inv cxt (with_connected b s).
Proof. intros [Hd Hf Hc Hp Ht Htr Hst]. constructor; simpl; auto. Qed.

Lemma inv_with_dom l s : Inv cxt s -> Inv cxt (with_dom l s).
Proof. intros [Hd Hf Hc Hp Ht Htr Hst]. constructor; simpl; auto. Qed.

Lemma inv_with_clock n s : (clock s <= n)%N -> Inv cxt s -> Inv cxt (with_clock n s).
Proof.
  intros Hle [Hd Hf Hc Hp Ht Htr Hst]. constructor; simpl; auto.
  eapply Forall_mono; [|exact Hst]. simpl. intros a Ha. lia.
Qed.

Lemma incl_filter {A : Type} (f : A -> bool) (l : list A) : incl (filter f l) l.
Proof. intros a Ha. apply filter_In in Ha. tauto. Qed.

(** *** The listener *)

(** The listener either sends one action command the device is eligible for
    and parks before arming the timer, or goes straight to [stopScanning]. *)
Lemma listener_cases (d : ButtplugClientDevice) :
  (exists r, target r = Some d /\ eligible cxt r
             /\ deviceadded_listener cxt d = Await r (after_dispatch cxt d))
  \/ deviceadded_listener cxt d = finish.
Proof.
  unfold deviceadded_listener, after_dispatch, stop_callback, finish.
  destruct (truthy_vibrate (vibrate cxt)) as [speed|] eqn:Ev.
  - destruct (0 <? List.length (vibrateAttributes d)) eqn:El; [left|right; reflexivity].
    exists (Vibrate d speed). repeat split; auto.
    intros E. rewrite E in El. discriminate.
  - destruct (truthy_linear (linear cxt)) as [position|] eqn:Ep; [|right; reflexivity].
    destruct (truthy_duration (linearDuration cxt)) as [duration|] eqn:Ed;
      [|right; reflexivity].
    destruct (0 <? List.length (linearAttributes d)) eqn:El; [left|right; reflexivity].
    exists (Linear d position duration). repeat split; auto.
    intros E. rewrite E in El. discriminate.
Qed.

Lemma calm_refl s : calm s s.
Proof. unfold calm. auto. Qed.

Lemma calm_trans s s' s'' : calm s s' -> calm s' s'' -> calm s s''.
Proof. unfold calm. intuition congruence. Qed.

Lemma target_is_action r d : target r = Some d -> is_action r = true.
Proof. destruct r; simpl; congruence. Qed.

Lemma exec_listener d s :
  Inv cxt s ->
  let s' := exec Callback (deviceadded_listener cxt d) s in
  Inv cxt s' /\ grows 1 s s' /\ calm s s'.
Proof.
  intros HI. destruct (listener_cases d) as [(r & Ht & He & E)|E]; rewrite E; simpl.
  - split; [|split].
    + apply inv_suspend; auto.
      * unfold entry_ok. simpl. destruct r; try discriminate; exact He.
      * unfold parked_ok. simpl.
        assert (Hd : exists t0, dispatched_to (trace s ++ [(clock s, Sent r)]) d t0).
        { exists (clock s), r. split; [|exact Ht].
          apply in_or_app. right. left. reflexivity. }
        destruct r; try discriminate; simpl in Ht; inversion Ht; subst; auto.
    + pose proof (grows_suspend Callback r (after_dispatch cxt d) None s) as G.
      rewrite (target_is_action _ _ Ht) in G. exact G.
    + unfold calm. simpl. auto.
  - split; [|split].
    + apply inv_suspend; auto.
      * exact I.
      * unfold parked_ok. simpl. auto.
    + apply grows_le with 0; [lia|]. apply (grows_suspend Callback StopScanning).
    + unfold calm. simpl. auto.
Qed.

Lemma emit_deviceadded_ok d s :
  Inv cxt s ->
  let s' := emit_deviceadded d s in
  Inv cxt s' /\ grows 1 s s' /\ calm s s' /\ on_deviceadded s' = on_deviceadded s.
Proof.
  intros HI. unfold emit_deviceadded.
  destruct (link s).
  - pose proof (inv_deviceadded cxt s HI) as E. rewrite E. simpl.
    destruct (exec_listener d s HI) as (H1 & H2 & H3).
    split; [exact H1 | split; [exact H2 | split; [exact H3|]]].
    destruct (listener_cases d) as [(r & _ & _ & Er)|Er]; rewrite Er; simpl; auto.
  - simpl. split; [exact HI | split; [|split; [apply calm_refl | reflexivity]]].
    apply grows_le with 0; [lia | apply grows_refl].
Qed.

Lemma emit_all_ok known s :
  Inv cxt s ->
  let s' := fold_left (fun s' d => emit_deviceadded d s') known s in
  Inv cxt s' /\ grows (List.length known) s s' /\ calm s s'.
Proof.
  revert s. induction known as [|d known IH]; intros s HI; simpl.
  - split; [exact HI | split; [apply grows_refl | apply calm_refl]].
  - destruct (emit_deviceadded_ok d s HI) as (H1 & H2 & H3 & _).
    destruct (IH _ H1) as (H4 & H5 & H6).
    split; [exact H4 | split].
    + apply (grows_trans 1 (List.length known) _ _ _ H2 H5).
    + eapply calm_trans; eauto.
Qed.

Lemma stamp_le_clock s t o : Inv cxt s -> In (t, o) (trace s) -> (t <= clock s)%N.
Proof.
  intros HI Hin.
  exact (proj1 (Forall_forall _ _) (inv_stamps cxt s HI) (t, o) Hin).
Qed.

(** *** Resuming a parked task *)

Lemma resume_ok (p : suspended) (s : state) :
  Inv cxt s -> parked_ok cxt (trace s) p ->
  let s' := exec (sus_owner p) (sus_then p) s in
  Inv cxt s' /\ grows 0 s s'.
Proof.
  intros HI Hp. destruct p as [pid po pr pk pc]. unfold parked_ok in Hp. simpl in *.
  destruct pr as [url| | |d v|d pos dur|d]; simpl in Hp.
  - destruct Hp as (-> & -> & _). simpl. split.
    + apply inv_suspend; auto; [exact I | unfold parked_ok; simpl; auto].
    + apply (grows_suspend Main StartScanning).
  - destruct Hp as (-> & _). simpl. split; [now apply inv_settle|].
    apply grows_same, trace_settle.
  - destruct Hp as (-> & _). simpl. split; [now apply inv_settle|].
    apply grows_same, trace_settle.
  - destruct Hp as (-> & -> & _ & t0 & Hd). simpl.
    assert (HI' : Inv cxt (arm (stop_callback d) (timeout cxt) s)).
    { apply inv_arm; auto. exists d. simpl. repeat split; auto.
      exists t0. split; [exact Hd|]. destruct Hd as (r & Hin & _).
      eapply stamp_le_clock; eauto. }
    split.
    + apply inv_suspend; auto; [exact I | unfold parked_ok; simpl; auto].
    + exists [(clock s, Sent StopScanning)]. split; [reflexivity | apply Nat.le_refl].
  - destruct Hp as (-> & -> & _ & t0 & Hd). simpl.
    assert (HI' : Inv cxt (arm (stop_callback d) (timeout cxt) s)).
    { apply inv_arm; auto. exists d. simpl. repeat split; auto.
      exists t0. split; [exact Hd|]. destruct Hd as (r & Hin & _).
      eapply stamp_le_clock; eauto. }
    split.
    + apply inv_suspend; auto; [exact I | unfold parked_ok; simpl; auto].
    + exists [(clock s, Sent StopScanning)]. split; [reflexivity | apply Nat.le_refl].
  - destruct Hp as (-> & _). simpl. split; [now apply inv_settle|].
    apply grows_same, trace_settle.
Qed.

Lemma found_parked id s p :
  Inv cxt s -> find (waits_for id) (pending s) = Some p -> parked_ok cxt (trace s) p.
Proof.
  intros HI Hf. apply find_some in Hf. destruct Hf as (Hin & _).
  exact (proj1 (Forall_forall _ _) (inv_pending cxt s HI) p Hin).
Qed.

Lemma found_timer id s t :
  Inv cxt s -> find (has_id id) (timers s) = Some t -> timer_ok cxt (trace s) t.
Proof.
  intros HI Hf. apply find_some in Hf. destruct Hf as (Hin & _).
  exact (proj1 (Forall_forall _ _) (inv_timers cxt s HI) t Hin).
Qed.

Lemma run_scanningfinished_ok (l : list task) (s : state) :
  Forall (eq scanningfinished_listener) l -> Inv cxt s ->
  let s' := fold_left (fun s' t => exec Callback t s') l s in
  Inv cxt s' /\ grows 0 s s'.
Proof.
  revert s. induction l as [|t l IH]; intros s Hf HI; simpl.
  - split; [exact HI | apply grows_refl].
  - inversion Hf as [|? ? Et Hl]; subst.
    assert (H1 : Inv cxt (exec Callback scanningfinished_listener s))
      by (simpl; apply inv_log, HI).
    destruct (IH _ Hl H1) as (H2 & G2).
    split; [exact H2|].
    apply (grows_trans 0 0 s _ _ (grows_log "Scanning Finished" s) G2).
Qed.

(** *** Every turn of the loop keeps the invariant *)

Lemma step_ok (e : event) (s : state) :
  Inv cxt s -> Inv cxt (step e s) /\ grows (announced e) s (step e s).
Proof.
  intros HI. destruct e as [id known|id err|d| |ms|id|a|links| ]; simpl.
  - destruct (find (waits_for id) (pending s)) as [p|] eqn:Ef;
      [|split; [exact HI | apply grows_same; reflexivity]].
    pose proof (found_parked id s p HI Ef) as Hp.
    set (s1 := with_pending (filter (fun q => negb (waits_for id q)) (pending s)) s).
    assert (H1 : Inv cxt s1) by (apply inv_with_pending; [exact HI | apply incl_filter]).
    set (s2 := if is_connect (sus_request p)
               then with_connected true (with_link true s1) else s1).
    assert (H2 : Inv cxt s2) by (unfold s2; destruct (is_connect _); [apply inv_with_connected, inv_with_link|]; exact H1).
    assert (E2 : trace s2 = trace s) by (unfold s2; destruct (is_connect _); reflexivity).
    destruct (emit_all_ok known s2 H2) as (H3 & G3 & _).
    set (s3 := fold_left (fun s' d => emit_deviceadded d s') known s2) in *.
    assert (Hp3 : parked_ok cxt (trace s3) p).
    { eapply parked_ok_mono; [|exact Hp]. rewrite <- E2. eapply grows_incl; eauto. }
    destruct (resume_ok p s3 H3 Hp3) as (H4 & G4).
    split; [exact H4|].
    replace (List.length known) with (List.length known + 0) by lia.
    eapply grows_trans; [|exact G4].
    destruct G3 as (new & En & Ln). exists new. rewrite <- E2. auto.
  - destruct (find (waits_for id) (pending s)) as [p|] eqn:Ef;
      [|split; [exact HI | apply grows_same; reflexivity]].
    pose proof (found_parked id s p HI Ef) as Hp.
    set (s1 := with_pending (filter (fun q => negb (waits_for id q)) (pending s)) s).
    assert (H1 : Inv cxt s1) by (apply inv_with_pending; [exact HI | apply incl_filter]).
    destruct (sus_catch p) as [h|] eqn:Ec.
    + unfold parked_ok in Hp. destruct (sus_request p);
        try (destruct Hp as (_ & Hp); congruence);
        try (destruct Hp as (_ & _ & Hp & _); congruence).
      destruct Hp as (-> & _ & Hc). rewrite Ec in Hc. inversion Hc; subst h.
      cbn [exec].
      split; [apply inv_settle, inv_log, H1|].
      exists [(clock s, Logged err)]. split; [|apply Nat.le_refl].
      reflexivity.
    + split; [apply inv_settle, H1|]. apply grows_same. rewrite trace_settle. reflexivity.
  - destruct (emit_deviceadded_ok d s HI) as (H1 & H2 & _). auto.
  - unfold emit_scanningfinished. destruct (link s);
      [|split; [exact HI | apply grows_same; reflexivity]].
    apply run_scanningfinished_ok; [apply (inv_scanningfinished cxt s HI) | exact HI].
  - split; [|apply grows_same; reflexivity].
    apply inv_with_clock; [simpl; lia | exact HI].
  - destruct (find (has_id id) (timers s)) as [t|] eqn:Ef;
      [|split; [exact HI | apply grows_same; reflexivity]].
    destruct (due t (clock s)) eqn:Ed;
      [|split; [exact HI | apply grows_same; reflexivity]].
    destruct (found_timer id s t HI Ef) as (d & Ecb & Edl & t0 & Hdisp & Hle).
    rewrite Ecb. simpl.
    set (s1 := with_timers (filter (fun u => negb (has_id id u)) (timers s)) s).
    assert (H1 : Inv cxt s1) by (apply inv_with_timers; [exact HI | apply incl_filter]).
    split; [|exists [(clock s, Sent (Stop d))]; split; [reflexivity | apply Nat.le_refl]].
    apply (inv_suspend Callback (Stop d) Return None s1);
      auto; [|unfold parked_ok; simpl; auto].
    unfold entry_ok. simpl. exists t0.
    assert (Ht0 : (t0 <= clock s)%N).
    { destruct Hdisp as (r & Hin & _). eapply stamp_le_clock; eauto. }
    split; [|split; [exact Ht0|]].
    + eapply dispatched_to_mono; [|exact Hdisp]. apply incl_appl, incl_refl.
    + unfold due in Ed. rewrite Edl in Ed.
      eapply reached_mono; [|exact Ed]. lia.
  - unfold emit_click. rewrite (inv_clicks cxt s HI). simpl.
    split; [exact HI | apply grows_same; reflexivity].
  - split; [apply inv_with_dom, HI | apply grows_same; reflexivity].
  - destruct (existsb _ _); [|split; [exact HI | apply grows_same; reflexivity]].
    split; [apply inv_with_link, HI | apply grows_same; reflexivity].
Qed.

Lemma steps_ok (sched : list event) (s : state) :
  Inv cxt s -> Inv cxt (steps sched s) /\ grows (announcements sched) s (steps sched s).
Proof.
  revert s. induction sched as [|e sched IH]; intros s HI; simpl.
  - split; [exact HI | apply grows_refl].
  - destruct (step_ok e s HI) as (H1 & G1).
    destruct (IH _ H1) as (H2 & G2).
    split; [exact H2 | eapply grows_trans; eauto].
Qed.

(** *** A session starts in the invariant, or does not start at all *)

Lemma boot_rejected :
  new_URL (connectAddress cxt) = None ->
  exec Main (lovetownConnect new_URL cxt) init
  = settle Main (Rejected invalid_url) init.
Proof. intros E. unfold lovetownConnect. rewrite E. reflexivity. Qed.

Lemma boot_connecting url :
  new_URL (connectAddress cxt) = Some url ->
  exec Main (lovetownConnect new_URL cxt) init
  = suspend Main (Connect url) (Await StartScanning Return)
            (Some (fun e => ConsoleLog e Return))
            (listen_scanningfinished scanningfinished_listener
               (listen_deviceadded (deviceadded_listener cxt) init)).
Proof. intros E. unfold lovetownConnect. rewrite E. reflexivity. Qed.

Lemma boot_inv url :
  new_URL (connectAddress cxt) = Some url ->
  Inv cxt (exec Main (lovetownConnect new_URL cxt) init).
Proof.
  intros E. rewrite (boot_connecting url E).
  constructor; simpl; auto.
  - constructor; [|constructor]. unfold parked_ok. simpl. auto.
  - constructor; [|constructor]. exact I.
  - constructor; [|constructor]. simpl. lia.
Qed.

Lemma session_cases (sched : list event) :
  let s := run (lovetownConnect new_URL cxt) sched in
  (new_URL (connectAddress cxt) = None /\ dead s /\ trace s = []
   /\ next_timer s = 0 /\ result s = Some (Rejected invalid_url) /\ unhandled s = [])
  \/ (Inv cxt s /\ dispatches (trace s) <= announcements sched).
Proof.
  unfold run. destruct (new_URL (connectAddress cxt)) as [url|] eqn:E.
  - right. destruct (steps_ok sched _ (boot_inv url E)) as (HI & new & En & Ln).
    split; [exact HI|]. rewrite En, dispatches_app.
    rewrite (boot_connecting url E). simpl. exact Ln.
  - left. rewrite (boot_rejected E).
    assert (Hd : dead (settle Main (Rejected invalid_url) init))
      by (unfold dead; simpl; auto).
    destruct (dead_steps sched _ Hd) as (H1 & H2 & H3 & H4 & H5 & _).
    repeat split; try apply H1; auto.
Qed.

End Session.

(** ** What a session sends *)

Lemma listener_classify (cxt : LovetownOptions) (d : ButtplugClientDevice) :
  deviceadded_listener cxt d = dispatch cxt d (classify cxt d).
Proof.
  unfold deviceadded_listener, classify, dispatch, after_dispatch, stop_callback, finish.
  destruct (truthy_vibrate (vibrate cxt)) as [speed|].
  - destruct (0 <? List.length (vibrateAttributes d)); reflexivity.
  - destruct (truthy_linear (linear cxt)) as [position|]; [|reflexivity].
    destruct (truthy_duration (linearDuration cxt)) as [duration|]; [|reflexivity].
    destruct (0 <? List.length (linearAttributes d)); reflexivity.
Qed.

Lemma in_requests (s : state) (r : request) :
  In r (requests s) <-> exists t, In (t, Sent r) (trace s).
Proof.
  unfold requests. rewrite in_flat_map. split.
  - intros ((t, o) & Hin & Hr). simpl in Hr. destruct o as [r'|m]; [|contradiction].
    destruct Hr as [->|[]]. exists t. exact Hin.
  - intros (t & Hin). exists (t, Sent r). split; [exact Hin | left; reflexivity].
Qed.

(** Every request of a session passed the tests of the listener. *)
Lemma sent_eligible new_URL cxt sched r :
  In r (requests (run (lovetownConnect new_URL cxt) sched)) -> eligible cxt r.
Proof.
  intros Hin. apply in_requests in Hin. destruct Hin as (t & Hin).
  destruct (session_cases new_URL cxt sched) as [(_ & _ & Etr & _)|(HI & _)].
  - rewrite Etr in Hin. contradiction.
  - pose proof (proj1 (Forall_forall _ _) (inv_trace cxt _ HI) _ Hin) as He.
    unfold entry_ok in He. simpl in He. destruct r; auto. exact I.
Qed.

(** ** C1: how many action commands a session sends *)

(** C1, as stated, fails: the session keeps no "already dispatched" flag.
    With the request [{vibrate: 1, timeout: 3000}] and two vibrating devices
    announced one after the other, before [stopScanning] was even sent, each
    device gets its own [vibrate] command: two action commands in one
    session. *)
Lemma two_devices_two_commands :
  let s := run (lovetownConnect sample_URL (vibrate_request 1 3000))
               [Resolved 0 []; Resolved 1 []; DeviceAdded toy; DeviceAdded toy2] in
  requests s = [Connect intiface; StartScanning;
                Vibrate toy (Speed 1); Vibrate toy2 (Speed 1)]
  /\ dispatches (trace s) = 2.
Proof. vm_compute. split; reflexivity. Qed.

(** C1, amended: a session sends at most one action command per device
    announced to it (never more commands than announcements), and it sends
    one for every announcement of a device that passes the listener's tests,
    whatever it sent before: the announcement of [d] to a session whose
    socket is open appends exactly the first request of [d]'s verdict to the
    trace. *)
Theorem one_command_per_announcement
    (new_URL : string -> option string) (cxt : LovetownOptions) (sched : list event) :
  let s := run (lovetownConnect new_URL cxt) sched in
  dispatches (trace s) <= announcements sched
  /\ forall d, link s = true ->
       trace (step (DeviceAdded d) s)
       = trace s ++ [(clock s, Sent (first_request d (classify cxt d)))].
Proof.
  intros s. pose proof (session_cases new_URL cxt sched) as H. fold s in H.
  cbv zeta in H. destruct H as [(_ & Hd & Etr & _)|(HI & Hn)].
  - split.
    + rewrite Etr. apply Nat.le_0_l.
    + intros d Hl. destruct Hd as (Hl' & _). congruence.
  - split; [exact Hn|].
    intros d Hl. simpl. unfold emit_deviceadded. rewrite Hl.
    rewrite (inv_deviceadded cxt s HI). simpl.
    rewrite listener_classify. destruct (classify cxt d); reflexivity.
Qed.

Lemma one_command_per_announcement_witness :
  let s := run (lovetownConnect sample_URL (vibrate_request 1 3000))
               [Resolved 0 []; DeviceAdded toy] in
  link s = true
  /\ trace (step (DeviceAdded toy2) s)
     = trace s ++ [(clock s, Sent (Vibrate toy2 (Speed 1)))].
Proof.
  split; [reflexivity|].
  exact (proj2 (one_command_per_announcement sample_URL (vibrate_request 1 3000)
                  [Resolved 0 []; DeviceAdded toy]) toy2 eq_refl).
Defined.

(** ** C2: a linear payload with no duration *)

(** C2: when the options carry a [linear] payload and no [linearDuration],
    no device is classified as supporting the linear action, whatever its
    actuators, and no session ever sends a [linear] command. *)
Theorem linear_needs_duration
    (new_URL : string -> option string) (cxt : LovetownOptions)
    (position : linear_value) :
  linear cxt = Some position ->
  linearDuration cxt = None ->
  (forall d, match classify cxt d with SupportsLinear _ _ => False | _ => True end)
  /\ (forall sched,
        Forall (fun r => is_linear r = false)
               (requests (run (lovetownConnect new_URL cxt) sched))).
Proof.
  intros _ Hdur. split.
  - intros d. unfold classify. rewrite Hdur. simpl.
    destruct (truthy_vibrate (vibrate cxt)).
    + destruct (0 <? List.length (vibrateAttributes d)); exact I.
    + destruct (truthy_linear (linear cxt)); exact I.
  - intros sched. apply Forall_forall. intros r Hin.
    apply sent_eligible in Hin. destruct r; try reflexivity.
    simpl in Hin. destruct Hin as (_ & _ & Hd & _).
    rewrite Hdur in Hd. discriminate.
Qed.

Lemma linear_needs_duration_witness :
  (forall d,
      match classify (linear_request None None) d with
      | SupportsLinear _ _ => False
      | _ => True
      end)
  /\ (forall sched,
        Forall (fun r => is_linear r = false)
               (requests (run (lovetownConnect sample_URL (linear_request None None))
                              sched))).
Proof.
  exact (linear_needs_duration sample_URL (linear_request None None)
           (Vectors [(0.5, 0); (1, 500)]%float) eq_refl eq_refl).
Defined.

(** ** C3: a device with no vibration actuator *)

(** C3, as stated, fails: the options [{vibrate: 0, linear: 0.5,
    linearDuration: 1000}] contain a vibration payload, the device announced
    has no vibration actuator (and one linear actuator), and yet an action
    command, [linear], is sent to that device: the payload [0] is falsy, so
    the listener goes on to the linear test. *)
Lemma falsy_vibrate_sends_linear :
  vibrate zero_vibrate_request = Some (Speed 0)
  /\ vibrateAttributes stroker = []
  /\ requests (run (lovetownConnect sample_URL zero_vibrate_request)
                   [Resolved 0 []; DeviceAdded stroker])
     = [Connect intiface; StartScanning; Linear stroker (Position 0.5) 1000].
Proof. vm_compute. repeat split; reflexivity. Qed.

(** C3, amended: when the options carry a vibration payload and the device
    has no vibration actuator, no session ever sends a [vibrate] command to
    that device; and unless the payload is falsy while [linear] and
    [linearDuration] are both truthy and the device has a linear actuator, no
    action command at all is sent to it, and the listener passes it over in
    silence: its whole effect is the [stopScanning] request, with nothing
    logged and nothing rejected. *)
Theorem vibration_needs_actuator
    (new_URL : string -> option string) (cxt : LovetownOptions)
    (speed : vibrate_value) (d : ButtplugClientDevice) :
  vibrate cxt = Some speed ->
  vibrateAttributes d = [] ->
  (forall sched,
      Forall (fun r => is_vibrate r = true -> target r <> Some d)
             (requests (run (lovetownConnect new_URL cxt) sched)))
  /\ (truthy_vibrate (vibrate cxt) <> None
      \/ truthy_linear (linear cxt) = None
      \/ truthy_duration (linearDuration cxt) = None
      \/ linearAttributes d = [] ->
      (forall sched,
          Forall (fun r => target r <> Some d)
                 (requests (run (lovetownConnect new_URL cxt) sched)))
      /\ (forall s,
             exec Callback (deviceadded_listener cxt d) s
             = suspend Callback StopScanning Return None s)).
Proof.
  intros _ Hvib. split.
  - intros sched. apply Forall_forall. intros r Hin Hv Ht.
    apply sent_eligible in Hin. destruct r; try discriminate.
    simpl in Ht. inversion Ht; subst. simpl in Hin. destruct Hin as (_ & Hne).
    contradiction.
  - intros Hcase. split.
    + intros sched. apply Forall_forall. intros r Hin Ht.
      apply sent_eligible in Hin. destruct r; try discriminate;
        simpl in Ht; inversion Ht; subst; simpl in Hin.
      * destruct Hin as (_ & Hne). contradiction.
      * destruct Hin as (Hv & Hp & Hdur & Hne).
        destruct Hcase as [H|[H|[H|H]]]; congruence.
    + intros s. rewrite listener_classify. unfold classify. rewrite Hvib. simpl.
      destruct (truthy_vibrate (vibrate cxt)) as [sp|] eqn:Ev; [reflexivity|].
      destruct (truthy_linear (linear cxt)) as [position|] eqn:Ep; [|reflexivity].
      destruct (truthy_duration (linearDuration cxt)) as [duration|] eqn:Ed;
        [|reflexivity].
      destruct Hcase as [H|[H|[H|H]]]; try congruence.
      rewrite H. reflexivity.
Qed.

Lemma vibration_needs_actuator_witness :
  (forall sched,
      Forall (fun r => is_vibrate r = true -> target r <> Some gamepad)
             (requests (run (lovetownConnect sample_URL (vibrate_request 1 3000)) sched)))
  /\ (truthy_vibrate (vibrate (vibrate_request 1 3000)) <> None
      \/ truthy_linear (linear (vibrate_request 1 3000)) = None
      \/ truthy_duration (linearDuration (vibrate_request 1 3000)) = None
      \/ linearAttributes gamepad = [] ->
      (forall sched,
          Forall (fun r => target r <> Some gamepad)
                 (requests (run (lovetownConnect sample_URL (vibrate_request 1 3000))
                                sched)))
      /\ (forall s,
             exec Callback (deviceadded_listener (vibrate_request 1 3000) gamepad) s
             = suspend Callback StopScanning Return None s)).
Proof.
  exact (vibration_needs_actuator sample_URL (vibrate_request 1 3000) (Speed 1) gamepad
           eq_refl eq_refl).
Defined.

(** ** C10: a vibration payload of zero *)

(** C10: when [vibrate] is a number equal to zero, the listener treats every
    device exactly as if the field were absent (the test is truthiness, not
    presence) and goes to the linear test: no session ever sends a [vibrate]
    command; when [linear] and [linearDuration] are truthy, a device with a
    linear actuator is sent the [linear] command with these two values and
    then gets the stop timer, the listener being that very task, and so
    every announcement of such a device to a session that hears it sends the
    command; and when one of the two is falsy or the device has no linear
    actuator, the listener only asks to stop the scan, vibration actuators
    or not. *)
Theorem zero_vibrate_is_absent
    (new_URL : string -> option string) (cxt : LovetownOptions) (v : number) :
  vibrate cxt = Some (Speed v) ->
  PrimFloat.eqb v 0 = true ->
  (forall d, deviceadded_listener cxt d = deviceadded_listener (without_vibrate cxt) d)
  /\ (forall sched,
        Forall (fun r => is_vibrate r = false)
               (requests (run (lovetownConnect new_URL cxt) sched)))
  /\ (forall d position duration,
        truthy_linear (linear cxt) = Some position ->
        truthy_duration (linearDuration cxt) = Some duration ->
        linearAttributes d <> [] ->
        classify cxt d = SupportsLinear position duration
        /\ deviceadded_listener cxt d
           = Await (Linear d position duration)
               (SetTimeout (Await (Stop d) Return) (timeout cxt)
                  (Await StopScanning Return))
        /\ forall sched,
             let s := run (lovetownConnect new_URL cxt) sched in
             link s = true ->
             trace (step (DeviceAdded d) s)
             = trace s ++ [(clock s, Sent (Linear d position duration))]
             /\ parked_actions (pending (step (DeviceAdded d) s))
                = S (parked_actions (pending s)))
  /\ (forall d,
        truthy_linear (linear cxt) = None
        \/ truthy_duration (linearDuration cxt) = None
        \/ linearAttributes d = [] ->
        deviceadded_listener cxt d = Await StopScanning Return
        /\ forall sched,
             let s := run (lovetownConnect new_URL cxt) sched in
             link s = true ->
             trace (step (DeviceAdded d) s) = trace s ++ [(clock s, Sent StopScanning)]).
Proof.
  intros Hv Hz.
  assert (Hf : truthy_vibrate (vibrate cxt) = None).
  { rewrite Hv. simpl. unfold truthy_number. rewrite Hz. reflexivity. }
  assert (Hrun : forall sched d,
            link (run (lovetownConnect new_URL cxt) sched) = true ->
            step (DeviceAdded d) (run (lovetownConnect new_URL cxt) sched)
            = exec Callback (deviceadded_listener cxt d)
                   (run (lovetownConnect new_URL cxt) sched)).
  { intros sched d Hl.
    destruct (session_cases new_URL cxt sched) as [(_ & (Hl' & _) & _)|(HI & _)];
      [congruence|].
    simpl. unfold emit_deviceadded. rewrite Hl, (inv_deviceadded cxt _ HI). reflexivity. }
  split; [|split; [|split]].
  - intros d. unfold deviceadded_listener. rewrite Hf. reflexivity.
  - intros sched. apply Forall_forall. intros r Hin.
    apply sent_eligible in Hin. destruct r; try reflexivity.
    simpl in Hin. destruct Hin as (Hs & _). congruence.
  - intros d position duration Hp Hd Hne.
    assert (Hl : (0 <? List.length (linearAttributes d)) = true)
      by (destruct (linearAttributes d); [contradiction | reflexivity]).
    assert (El : deviceadded_listener cxt d
                 = Await (Linear d position duration)
                     (SetTimeout (Await (Stop d) Return) (timeout cxt)
                        (Await StopScanning Return)))
      by (unfold deviceadded_listener; rewrite Hf, Hp, Hd, Hl; reflexivity).
    split; [unfold classify; rewrite Hf, Hp, Hd, Hl; reflexivity | split; [exact El|]].
    intros sched s Hlk. unfold s. rewrite (Hrun sched d Hlk), El. simpl.
    split; [reflexivity|]. unfold parked_actions. rewrite filter_app, length_app. simpl.
    apply Nat.add_1_r.
  - intros d Hno.
    assert (El : deviceadded_listener cxt d = Await StopScanning Return).
    { unfold deviceadded_listener. rewrite Hf.
      destruct Hno as [Hp|[Hd|Ha]].
      - rewrite Hp. reflexivity.
      - rewrite Hd. destruct (truthy_linear (linear cxt)); reflexivity.
      - rewrite Ha. simpl.
        destruct (truthy_linear (linear cxt)); [|reflexivity].
        destruct (truthy_duration (linearDuration cxt)); reflexivity. }
    split; [exact El|].
    intros sched s Hlk. unfold s. rewrite (Hrun sched d Hlk), El. reflexivity.
Qed.

Lemma zero_vibrate_is_absent_witness :
  let s := run (lovetownConnect sample_URL zero_vibrate_request)
               [Resolved 0 []; Resolved 1 []] in
  (forall d, deviceadded_listener zero_vibrate_request d
             = deviceadded_listener (without_vibrate zero_vibrate_request) d)
  /\ (forall sched,
        Forall (fun r => is_vibrate r = false)
               (requests (run (lovetownConnect sample_URL zero_vibrate_request) sched)))
  /\ classify zero_vibrate_request stroker = SupportsLinear (Position 0.5) 1000
  /\ deviceadded_listener zero_vibrate_request stroker
     = Await (Linear stroker (Position 0.5) 1000)
         (SetTimeout (Await (Stop stroker) Return) 3000 (Await StopScanning Return))
  /\ trace (step (DeviceAdded stroker) s)
     = trace s ++ [(clock s, Sent (Linear stroker (Position 0.5) 1000))]
  /\ deviceadded_listener zero_vibrate_request toy = Await StopScanning Return
  /\ trace (step (DeviceAdded toy) s) = trace s ++ [(clock s, Sent StopScanning)].
Proof.
  pose proof (zero_vibrate_is_absent sample_URL zero_vibrate_request 0 eq_refl eq_refl)
    as (H1 & H2 & H3 & H4).
  destruct (H3 stroker (Position 0.5) 1000%float eq_refl eq_refl) as (Hc & Hl & Hr);
    [discriminate|].
  destruct (H4 toy (or_intror (or_intror eq_refl))) as (Ht & Hrt).
  cbv zeta.
  split; [exact H1 | split; [exact H2 | split; [exact Hc | split; [exact Hl|]]]].
  split; [exact (proj1 (Hr [Resolved 0 []; Resolved 1 []] eq_refl))|].
  split; [exact Ht | exact (Hrt [Resolved 0 []; Resolved 1 []] eq_refl)].
Defined.

(** ** C4: a malformed address *)

(** C4: when the address does not parse, [lovetownConnect] and
    [lovetownRuntime] reject with the parser's error before anything else
    happens, and nothing happens afterwards either, whatever the world does:
    no request is ever issued (so no connect, no scan, no command), the client
    is never connected, no timer is ever armed, nothing waits. *)
Theorem malformed_address
    (new_URL : string -> option string) (address : string) :
  new_URL address = None ->
  (forall cxt sched,
      connectAddress cxt = address ->
      let s := run (lovetownConnect new_URL cxt) sched in
      trace s = [] /\ next_id s = 0 /\ next_timer s = 0 /\ dead s
      /\ result s = Some (Rejected invalid_url))
  /\ (forall sched,
        let s := run (lovetownRuntime new_URL address) sched in
        trace s = [] /\ next_id s = 0 /\ next_timer s = 0 /\ dead s
        /\ result s = Some (Rejected invalid_url)).
Proof.
  intros Hbad.
  assert (Hd : dead (settle Main (Rejected invalid_url) init))
    by (unfold dead; simpl; auto).
  split.
  - intros cxt sched Ea s. subst s address. unfold run.
    rewrite (boot_rejected new_URL cxt Hbad).
    destruct (dead_steps sched _ Hd) as (H1 & H2 & H3 & H4 & _ & H6). auto.
  - intros sched s. subst s. unfold run, lovetownRuntime. rewrite Hbad.
    change (exec Main (Throw invalid_url) init)
      with (settle Main (Rejected invalid_url) init).
    destruct (dead_steps sched _ Hd) as (H1 & H2 & H3 & H4 & _ & H6). auto.
Qed.

Lemma malformed_address_witness :
  sample_URL "not an address" = None
  /\ (forall sched,
        let s := run (lovetownRuntime sample_URL "not an address") sched in
        trace s = [] /\ next_id s = 0 /\ next_timer s = 0 /\ dead s
        /\ result s = Some (Rejected invalid_url)).
Proof.
  split; [reflexivity|].
  exact (proj2 (malformed_address sample_URL "not an address" eq_refl)).
Defined.

(** ** Before the socket opens *)



(** ** C6: the action command is rejected *)

(** C6, as stated, fails: the listener has no [catch] around its [await].
    With the request [{vibrate: 1, timeout: 3000}], one vibrating device and
    the server rejecting the [vibrate] command, nothing is logged (the trace
    ends with the command itself), the rejection is left unhandled, and the
    rest of that listener, the [stopScanning] request, is given up. *)
Lemma rejected_command_is_not_logged :
  let s := run (lovetownConnect sample_URL (vibrate_request 1 3000))
               [Resolved 0 []; DeviceAdded toy; Failed 2 "device error"] in
  observations s = [Sent (Connect intiface); Sent StartScanning;
                    Sent (Vibrate toy (Speed 1))]
  /\ unhandled s = ["device error"]
  /\ timers s = [].
Proof. vm_compute. repeat split; reflexivity. Qed.

(** C6, amended: when the server rejects a parked action command, the
    rejection leaves the listener unhandled: nothing is logged and nothing is
    sent (no retry, and no [stopScanning] from that listener either), no
    timer is armed, the entry point's promise is untouched, and every other
    parked task stays parked. *)
Theorem submission_failure
    (new_URL : string -> option string) (cxt : LovetownOptions) (sched : list event)
    (id : nat) (p : suspended) (d : ButtplugClientDevice) (e : error) :
  let s := run (lovetownConnect new_URL cxt) sched in
  find (waits_for id) (pending s) = Some p ->
  target (sus_request p) = Some d ->
  let s' := step (Failed id e) s in
  trace s' = trace s
  /\ unhandled s' = unhandled s ++ [e]
  /\ timers s' = timers s
  /\ next_timer s' = next_timer s
  /\ result s' = result s
  /\ pending s' = filter (fun q => negb (waits_for id q)) (pending s).
Proof.
  intros s Hf Ht s'. subst s'.
  pose proof (session_cases new_URL cxt sched) as H. fold s in H. cbv zeta in H.
  destruct H as [(_ & (_ & Hp & _) & _)|(HI & _)].
  - rewrite Hp in Hf. discriminate.
  - pose proof (found_parked cxt id s p HI Hf) as Hk. unfold parked_ok in Hk.
    simpl. rewrite Hf.
    destruct (sus_request p); try discriminate;
      destruct Hk as (Ho & _ & Hc & _); rewrite Hc, Ho; simpl; auto 10.
Qed.

Lemma submission_failure_witness :
  let s := run (lovetownConnect sample_URL (vibrate_request 1 3000))
               [Resolved 0 []; DeviceAdded toy] in
  let s' := step (Failed 2 "device error") s in
  trace s' = trace s
  /\ unhandled s' = unhandled s ++ ["device error"]
  /\ timers s' = timers s
  /\ next_timer s' = next_timer s
  /\ result s' = result s
  /\ pending s' = filter (fun q => negb (waits_for 2 q)) (pending s).
Proof.
  exact (submission_failure sample_URL (vibrate_request 1 3000)
           [Resolved 0 []; DeviceAdded toy] 2
           {| sus_id := 2; sus_owner := Callback;
              sus_request := Vibrate toy (Speed 1);
              sus_then := after_dispatch (vibrate_request 1 3000) toy;
              sus_catch := None |}
           toy "device error" eq_refl eq_refl).
Defined.

(** ** C7: the delayed stop *)

Lemma armed_on_acceptance cxt (s : state) (id : nat) (p : suspended)
    (d : ButtplugClientDevice) (known : list ButtplugClientDevice) :
  Inv cxt s ->
  find (waits_for id) (pending s) = Some p ->
  target (sus_request p) = Some d ->
  timers (step (Resolved id known) s)
  = timers s ++ [{| timer_id := next_timer s; armed_at := clock s;
                    delay := timeout cxt; callback := stop_callback d |}].
Proof.
  intros HI Hf Ht.
  pose proof (found_parked cxt id s p HI Hf) as Hk. unfold parked_ok in Hk.
  simpl. rewrite Hf.
  set (s1 := with_pending (filter (fun q => negb (waits_for id q)) (pending s)) s).
  assert (H1 : Inv cxt s1) by (apply inv_with_pending; [exact HI | apply incl_filter]).
  assert (Hnc : is_connect (sus_request p) = false)
    by (destruct (sus_request p); try discriminate; reflexivity).
  rewrite Hnc.
  destruct (emit_all_ok cxt known s1 H1) as (_ & _ & Hc & Hn & _ & Htm).
  set (s3 := fold_left (fun s' d0 => emit_deviceadded d0 s') known s1) in *.
  assert (Hshape : sus_owner p = Callback /\ sus_then p = after_dispatch cxt d).
  { destruct (sus_request p); try discriminate; simpl in Ht; inversion Ht; subst;
      destruct Hk as (Ho & Hth & _); auto. }
  destruct Hshape as (-> & ->). simpl.
  rewrite Htm, Hn, Hc. reflexivity.
Qed.

Lemma to_long_small (z : Z) : (0 <= z < 2 ^ 31)%Z -> to_long z = z.
Proof.
  intros H. unfold to_long. change (2 ^ 31)%Z with 2147483648%Z in *.
  change (2 ^ 32)%Z with 4294967296%Z.
  rewrite Z.mod_small by lia.
  destruct (Z.leb_spec 2147483648 z); [lia | reflexivity].
Qed.

(** For a whole number of milliseconds below [2^31] the host waits that
    long. *)
Lemma timer_delay_whole (d : number) (n : N) :
  whole_ms d = Some n -> (n < 2 ^ 31)%N -> timer_delay d = n.
Proof.
  unfold whole_ms, timer_delay, integer_part. intros Hw Hn.
  assert (Hz : forall n' z, Some n' = Some n -> Z.of_N n' = z -> Z.to_N (to_long z) = n).
  { intros n' z E <-. injection E as ->. rewrite to_long_small; [apply N2Z.id|].
    split; [apply N2Z.is_nonneg|].
    change (2 ^ 31)%Z with (Z.of_N (2 ^ 31)). now apply N2Z.inj_lt. }
  destruct (Prim2SF d) as [sg|sg| |sg m e]; try discriminate.
  - apply (Hz _ _ Hw). reflexivity.
  - destruct sg; try discriminate. destruct e as [|k|k].
    + apply (Hz _ _ Hw). reflexivity.
    + apply (Hz _ _ Hw). rewrite N2Z.inj_mul, N2Z.inj_pow. reflexivity.
    + destruct (N.eqb _ _); [|discriminate]. apply (Hz _ _ Hw).
      rewrite N2Z.inj_div, N2Z.inj_pow. reflexivity.
Qed.

(** And that long is the timeout itself. *)
Lemma at_least_whole (d : number) (n elapsed : N) :
  whole_ms d = Some n -> at_least d elapsed = (n <=? elapsed)%N.
Proof.
  unfold whole_ms, at_least. intros Hw.
  destruct (Prim2SF d) as [sg|sg| |sg m e]; try discriminate.
  - injection Hw as <-. symmetry. apply N.leb_le. apply N.le_0_l.
  - destruct sg; try discriminate. destruct e as [|k|k].
    + injection Hw as <-. reflexivity.
    + injection Hw as <-. reflexivity.
    + destruct (N.eqb_spec (N.pos m mod 2 ^ N.pos k) 0) as [Hm|]; [|discriminate].
      assert (E : n = (N.pos m / 2 ^ N.pos k)%N) by congruence. clear Hw.
      assert (Hp : (2 ^ N.pos k <> 0)%N) by (apply N.pow_nonzero; discriminate).
      pose proof (N.div_mod (N.pos m) (2 ^ N.pos k) Hp) as Hd.
      rewrite Hm, N.add_0_r, <- E in Hd. clear E Hm.
      rewrite Hd, (N.mul_comm elapsed).
      destruct (N.leb_spec n elapsed) as [Hle|Hlt].
      * apply N.leb_le. now apply N.mul_le_mono_l.
      * apply N.leb_gt. apply N.mul_lt_mono_pos_l; [|exact Hlt]. apply N.neq_0_lt_0, Hp.
Qed.

(** C7, as stated, fails: the host takes the delay of a timer as a 32-bit
    integer.  With the request [{vibrate: 1, timeout: 2147483648}] (2^31
    milliseconds, some 25 days) the delay wraps to a negative number, which
    counts as zero: the timer may fire at once, and [stop] goes out 5 ms
    after the command was accepted, long before the timeout. *)
Lemma long_timeout_stops_at_once :
  let s := run (lovetownConnect sample_URL (vibrate_request 1 2147483648))
               [Resolved 0 []; DeviceAdded toy; Resolved 2 []; Tick 5; TimerFired 0] in
  trace s = [(0, Sent (Connect intiface)); (0, Sent StartScanning);
             (0, Sent (Vibrate toy (Speed 1))); (0, Sent StopScanning);
             (5, Sent (Stop toy))]%N
  /\ whole_ms 2147483648 = Some 2147483648%N
  /\ at_least 2147483648 5 = false.
Proof. vm_compute. repeat split; reflexivity. Qed.

(** C7, amended: in every session,
    - when the server accepts a parked action command for a device, the very
      same turn arms one timer, with the options' [timeout] as its delay and
      [stop] on that device as its callback;
    - an armed timer is such a timer, armed no earlier than an action command
      for its device went out; fired before the host's delay has passed it
      does nothing, and fired after, it sends [stop] to that device, whatever
      else happened in between;
    - no event other than its own firing removes an armed timer: the program
      never cancels one;
    - so every [stop] in the trace comes, after an action command to the same
      device, no earlier than the delay the host makes of [timeout]: the
      timeout cut to an integer and wrapped into 32 bits;
    - and that delay is the timeout itself when the timeout is a whole number
      of milliseconds below [2^31]: then, and not in general, the stop comes
      no earlier than the configured timeout. *)
Theorem stop_timer
    (new_URL : string -> option string) (cxt : LovetownOptions) (sched : list event) :
  let s := run (lovetownConnect new_URL cxt) sched in
  (forall id p d known,
      find (waits_for id) (pending s) = Some p ->
      target (sus_request p) = Some d ->
      timers (step (Resolved id known) s)
      = timers s ++ [{| timer_id := next_timer s; armed_at := clock s;
                        delay := timeout cxt; callback := stop_callback d |}])
  /\ (forall id t,
        find (has_id id) (timers s) = Some t ->
        exists d,
          callback t = stop_callback d /\ delay t = timeout cxt
          /\ (exists t0, dispatched_to (trace s) d t0 /\ (t0 <= armed_at t)%N)
          /\ (reached (timeout cxt) (clock s - armed_at t) = false ->
              step (TimerFired id) s = s)
          /\ (reached (timeout cxt) (clock s - armed_at t) = true ->
              trace (step (TimerFired id) s) = trace s ++ [(clock s, Sent (Stop d))]))
  /\ (forall e t,
        In t (timers s) ->
        (forall id, e = TimerFired id -> has_id id t = false) ->
        In t (timers (step e s)))
  /\ (forall t' d,
        In (t', Sent (Stop d)) (trace s) ->
        exists t0, dispatched_to (trace s) d t0
                   /\ (t0 + timer_delay (timeout cxt) <= t')%N
                   /\ reached (timeout cxt) (t' - t0) = true)
  /\ (forall n,
        whole_ms (timeout cxt) = Some n -> (n < 2 ^ 31)%N ->
        timer_delay (timeout cxt) = n
        /\ forall elapsed,
             reached (timeout cxt) elapsed = at_least (timeout cxt) elapsed).
Proof.
  intros s.
  pose proof (session_cases new_URL cxt sched) as H. fold s in H. cbv zeta in H.
  split; [|split; [|split; [|split]]].
  - intros id p d known Hf Ht.
    destruct H as [(_ & (_ & Hp & _) & _)|(HI & _)].
    + rewrite Hp in Hf. discriminate.
    + now apply armed_on_acceptance with (p := p).
  - intros id t Hf.
    destruct H as [(_ & (_ & _ & Htm & _) & _)|(HI & _)].
    + rewrite Htm in Hf. discriminate.
    + destruct (found_timer cxt id s t HI Hf) as (d & Ecb & Edl & Hdisp).
      exists d. split; [exact Ecb | split; [exact Edl | split; [exact Hdisp|]]].
      split; intros Hr; simpl; rewrite Hf; unfold due; rewrite Edl, Hr.
      * reflexivity.
      * rewrite Ecb. reflexivity.
  - intros e t. apply step_keeps_timers.
  - intros t' d Hin.
    destruct H as [(_ & _ & Etr & _)|(HI & _)].
    + rewrite Etr in Hin. contradiction.
    + destruct (proj1 (Forall_forall _ _) (inv_trace cxt s HI) _ Hin)
        as (t0 & Hd & Hle & Hr).
      exists t0. split; [exact Hd | split; [|exact Hr]].
      simpl in Hle, Hr. unfold reached in Hr. apply N.leb_le in Hr. lia.
  - intros n Hw Hn. pose proof (timer_delay_whole _ n Hw Hn) as Ed.
    split; [exact Ed|]. intros elapsed.
    unfold reached. rewrite Ed. symmetry. now apply at_least_whole.
Qed.

Lemma stop_timer_witness :
  let s := run (lovetownConnect sample_URL (vibrate_request seven_tenths 3000))
               [Resolved 0 []; DeviceAdded toy; Tick 10; Resolved 2 [];
                Tick 3000; TimerFired 0] in
  In (3010%N, Sent (Stop toy)) (trace s)
  /\ (exists t0, dispatched_to (trace s) toy t0
                 /\ (t0 + timer_delay 3000 <= 3010)%N
                 /\ reached 3000 (3010 - t0) = true)
  /\ timer_delay 3000 = 3000%N.
Proof.
  assert (Hin : In (3010%N, Sent (Stop toy))
                   (trace (run (lovetownConnect sample_URL (vibrate_request seven_tenths 3000))
                               [Resolved 0 []; DeviceAdded toy; Tick 10; Resolved 2 [];
                                Tick 3000; TimerFired 0])))
    by (vm_compute; tauto).
  pose proof (stop_timer sample_URL (vibrate_request seven_tenths 3000)
                [Resolved 0 []; DeviceAdded toy; Tick 10; Resolved 2 [];
                 Tick 3000; TimerFired 0]) as (_ & _ & _ & H4 & H5).
  split; [exact Hin | split; [exact (H4 3010%N toy Hin)|]].
  exact (proj1 (H5 3000%N eq_refl eq_refl)).
Defined.

(** ** C9: the positional entry point *)

(** C9: [lovetownSend] is [lovetownConnect] on the options made of its
    arguments: the same task, hence the same session under every schedule
    (the same requests at the same times, the same timers, the same
    settlement of the promise). *)
Theorem lovetownSend_forwards
    (new_URL : string -> option string)
    (address : string) (time : number) (speed : option number)
    (position : option linear_value) (duration : option number) :
  let cxt := {| connectAddress := address; timeout := time;
                vibrate := option_map Speed speed; linear := position;
                linearDuration := duration |} in
  lovetownSend new_URL address time speed position duration
  = lovetownConnect new_URL cxt
  /\ forall sched,
       run (lovetownSend new_URL address time speed position duration) sched
       = run (lovetownConnect new_URL cxt) sched.
Proof.
  intros cxt.
  assert (E : lovetownSend new_URL address time speed position duration
              = lovetownConnect new_URL cxt).
  { unfold lovetownSend, lovetownConnect. fold cxt.
    destruct (new_URL (connectAddress cxt)); reflexivity. }
  split; [exact E|]. intros sched. rewrite E. reflexivity.
Qed.

(** * More of the two entry points *)

(** ** Counting lemmas *)

Lemma count_sent_app f (a b : list (N * observation)) :
  count_sent f (a ++ b) = count_sent f a + count_sent f b.
Proof. unfold count_sent. rewrite filter_app, length_app. reflexivity. Qed.


Lemma parked_actions_app (a b : list suspended) :
  parked_actions (a ++ b) = parked_actions a + parked_actions b.
Proof. unfold parked_actions. rewrite filter_app, length_app. reflexivity. Qed.

Lemma filter_length_le {A : Type} (f : A -> bool) (l : list A) :
  List.length (filter f l) <= List.length l.
Proof.
  induction l as [|a l IH]; simpl; [lia|]. destruct (f a); simpl; lia.
Qed.

(** Dropping the entries that satisfy [g] drops at least the one found. *)
Lemma filter_drops {A : Type} (f g : A -> bool) (l : list A) (x : A) :
  find g l = Some x -> f x = true ->
  List.length (filter f (filter (fun a => negb (g a)) l)) + 1
  <= List.length (filter f l).
Proof.
  induction l as [|a l IH]; simpl; [discriminate|].
  destruct (g a) eqn:Eg; simpl.
  - intros E Hf. inversion E; subst. rewrite Hf. simpl.
    pose proof (filter_length_le f (filter (fun a => negb (g a)) l)) as H1.
    assert (H2 : List.length (filter f (filter (fun a => negb (g a)) l))
                 <= List.length (filter f l)).
    { clear. induction l as [|b l IH]; simpl; [lia|].
      destruct (g b); simpl; destruct (f b); simpl; lia. }
    lia.
  - intros E Hf. specialize (IH E Hf). destruct (f a); simpl; lia.
Qed.

Lemma filter_all_le {A : Type} (f g : A -> bool) (l : list A) :
  List.length (filter f (filter g l)) <= List.length (filter f l).
Proof.
  induction l as [|b l IH]; simpl; [lia|].
  destruct (g b); simpl; destruct (f b); simpl; lia.
Qed.

Lemma parked_actions_filter_le g (l : list suspended) :
  parked_actions (filter g l) <= parked_actions l.
Proof. apply filter_all_le. Qed.

Lemma timers_drop id (l : list timer) (t : timer) :
  find (has_id id) l = Some t ->
  List.length (filter (fun u => negb (has_id id u)) l) + 1 <= List.length l.
Proof.
  intros Hf.
  pose proof (filter_drops (fun _ => true) (has_id id) l t Hf eq_refl) as H.
  assert (E : forall m : list timer, filter (fun _ => true) m = m).
  { induction m as [|a m IH]; simpl; [reflexivity | now rewrite IH]. }
  rewrite !E in H. exact H.
Qed.

(** ** The order of a [lovetownConnect] session *)

Lemma adds_refl s : adds s s.
Proof.
  exists [], []. rewrite !app_nil_r. repeat split; auto.
Qed.

Lemma adds_trans s s' s'' : adds s s' -> adds s' s'' -> adds s s''.
Proof.
  intros (n1 & p1 & Et1 & Ep1 & C1 & S1 & T1 & F1 & A1 & Tm1 & L1 & Sf1 & K1 & R1)
         (n2 & p2 & Et2 & Ep2 & C2 & S2 & T2 & F2 & A2 & Tm2 & L2 & Sf2 & K2 & R2).
  exists (n1 ++ n2), (p1 ++ p2).
  rewrite Et2, Et1, Ep2, Ep1, !app_assoc, !count_sent_app, parked_actions_app,
    dispatches_app.
  repeat split; try lia; try congruence.
  apply Forall_app. split; assumption.
Qed.

Lemma adds_listener cxt d s :
  adds s (exec Callback (deviceadded_listener cxt d) s).
Proof.
  destruct (listener_cases cxt d) as [(r & Ht & _ & E)|E]; rewrite E; simpl.
  - exists [(clock s, Sent r)],
           [{| sus_id := next_id s; sus_owner := Callback; sus_request := r;
               sus_then := after_dispatch cxt d; sus_catch := None |}].
    destruct r; try discriminate; repeat split; auto;
      constructor; [intros up; reflexivity | constructor | intros up; reflexivity
                    | constructor].
  - exists [(clock s, Sent StopScanning)],
           [{| sus_id := next_id s; sus_owner := Callback;
               sus_request := StopScanning; sus_then := Return; sus_catch := None |}].
    repeat split; auto. constructor; [intros up; reflexivity | constructor].
Qed.

Lemma adds_emit cxt d s : Inv cxt s -> adds s (emit_deviceadded d s).
Proof.
  intros HI. unfold emit_deviceadded. destruct (link s); [|apply adds_refl].
  rewrite (inv_deviceadded cxt s HI). simpl. apply adds_listener.
Qed.

Lemma adds_emit_all cxt known s :
  Inv cxt s -> adds s (fold_left (fun s' d => emit_deviceadded d s') known s).
Proof.
  revert s. induction known as [|d known IH]; intros s HI; simpl.
  - apply adds_refl.
  - destruct (emit_deviceadded_ok cxt d s HI) as (H1 & _).
    eapply adds_trans; [apply (adds_emit cxt d s HI) | apply IH, H1].
Qed.

Lemma owner_ok_after_connect (l : list suspended) :
  Forall (owner_ok false) l ->
  Forall (owner_ok true) (filter (fun q => negb (waits_for 0 q)) l).
Proof.
  intros H. apply Forall_forall. intros q Hq. apply filter_In in Hq.
  destruct Hq as (Hin & Hne).
  pose proof (proj1 (Forall_forall _ _) H q Hin) as Hq.
  unfold owner_ok in *. destruct (sus_request q); auto.
  - destruct Hq as (E & _). unfold waits_for in Hne. rewrite E in Hne. discriminate.
  - destruct Hq as (_ & E). discriminate.
Qed.

(** A request that is fine whatever [connect] did is awaited in a callback. *)
Lemma owner_ok_callback (p : suspended) :
  (forall b, owner_ok b p) -> sus_owner p = Callback.
Proof.
  intros H. pose proof (H true) as Ht. pose proof (H false) as Hf.
  unfold owner_ok in *. destruct (sus_request p); auto.
  - destruct Ht as (_ & E). discriminate.
  - destruct Hf as (_ & E). discriminate.
Qed.

Lemma owner_ok_any (up : bool) (l : list suspended) :
  Forall (fun p => forall b, owner_ok b p) l -> Forall (owner_ok up) l.
Proof. intros H. eapply Forall_impl; [|exact H]. intros p Hp. apply Hp. Qed.

Lemma Forall_filter {A : Type} (P : A -> Prop) (f : A -> bool) (l : list A) :
  Forall P l -> Forall P (filter f l).
Proof.
  intros H. apply Forall_forall. intros a Ha. apply filter_In in Ha.
  exact (proj1 (Forall_forall _ _) H a (proj1 Ha)).
Qed.

Lemma order_adds (s s' : state) : Order s -> adds s s' -> Order s'.
Proof.
  intros [Hc Hs Hp Hst Hf]
         (new & newp & Et & Ep & C & S & T & F & A & Tm & L & Sf & K & Rs).
  constructor; rewrite ?K, ?Et, ?Ep, ?Tm, ?Sf, ?count_sent_app, ?dispatches_app,
    ?parked_actions_app; auto; try lia.
  apply Forall_app. split; [exact Hp | now apply owner_ok_any].
Qed.

Ltac tally :=
  rewrite ?count_sent_app, ?dispatches_app, ?parked_actions_app;
  unfold count_sent, dispatches, parked_actions in *; simpl in *; lia.

(** Every turn of the loop keeps the order. *)
Lemma order_step cxt (e : event) (s : state) :
  Inv cxt s -> Order s -> Order (step e s).
Proof.
  intros HI HO. pose proof HO as [Hc Hs Hp Hst Hf].
  destruct e as [id known|id err|d| |ms|id|a|links| ]; simpl.
  - destruct (find (waits_for id) (pending s)) as [p|] eqn:Ef; [|exact HO].
    pose proof (found_parked cxt id s p HI Ef) as Hk.
    destruct (find_some _ _ Ef) as (Hin & Hid).
    pose proof (proj1 (Forall_forall _ _) Hp p Hin) as Hop.
    set (keep := fun q => negb (waits_for id q)).
    assert (H1 : Inv cxt (with_pending (filter keep (pending s)) s))
      by (apply inv_with_pending; [exact HI | apply incl_filter]).
    assert (H2 : Inv cxt (if is_connect (sus_request p)
                          then with_connected true
                               (with_link true (with_pending (filter keep (pending s)) s))
                          else with_pending (filter keep (pending s)) s))
      by (destruct (is_connect _); [apply inv_with_connected, inv_with_link|]; exact H1).
    destruct (adds_emit_all cxt known _ H2)
      as (new & newp & Et & Ep & C & S & T & F & A & Tm & L & Sf & K & Rs).
    set (s3 := fold_left (fun s' d => emit_deviceadded d s') known _) in *.
    assert (Hdrop : is_action (sus_request p) = true ->
                    parked_actions (filter keep (pending s)) + 1
                    <= parked_actions (pending s))
      by apply (filter_drops (fun q => is_action (sus_request q)) (waits_for id)
                  (pending s) p Ef).
    pose proof (parked_actions_filter_le keep (pending s)) as Hle.
    destruct p as [pid po pr pk pc]. unfold parked_ok in Hk. unfold owner_ok in Hop.
    unfold waits_for in Hid. simpl in Hk, Hop, Hid, Hdrop, Et, Ep, Tm, K, Sf.
    destruct pr as [url| | |dv v|dl pos dur|ds]; simpl in Hk, Hop, Hdrop, Et, Ep, Tm, K, Sf.
    + destruct Hk as (-> & -> & _). destruct Hop as (-> & Hl).
      apply Nat.eqb_eq in Hid. subst id. rewrite Hl in Hs, Hp.
      constructor; simpl.
      * rewrite Et. tally.
      * rewrite K, Et. tally.
      * rewrite K, Ep.
        apply Forall_app. split; [|constructor; [split; reflexivity | constructor]].
        apply Forall_app. split; [|now apply owner_ok_any].
        now apply owner_ok_after_connect.
      * rewrite Et, Ep, Tm. tally.
      * rewrite Sf. exact Hf.
    + destruct Hk as (-> & _).
      cbn [sus_owner sus_then exec].
      constructor; rewrite ?trace_settle.
      * destruct po; cbn [settle trace]; rewrite Et; tally.
      * destruct po; cbn [settle trace connected]; rewrite K, Et; tally.
      * destruct po; cbn [settle pending connected]; rewrite K, Ep;
          (apply Forall_app; split; [now apply Forall_filter | now apply owner_ok_any]).
      * destruct po; cbn [settle pending timers trace]; rewrite Et, Ep, Tm; tally.
      * destruct po; cbn [settle on_scanningfinished]; rewrite Sf; exact Hf.
    + destruct Hk as (-> & _).
      cbn [sus_owner sus_then exec].
      constructor; rewrite ?trace_settle.
      * destruct po; cbn [settle trace]; rewrite Et; tally.
      * destruct po; cbn [settle trace connected]; rewrite K, Et; tally.
      * destruct po; cbn [settle pending connected]; rewrite K, Ep;
          (apply Forall_app; split; [now apply Forall_filter | now apply owner_ok_any]).
      * destruct po; cbn [settle pending timers trace]; rewrite Et, Ep, Tm; tally.
      * destruct po; cbn [settle on_scanningfinished]; rewrite Sf; exact Hf.
    + destruct Hk as (_ & -> & _). rewrite Hop. specialize (Hdrop eq_refl).
      constructor; simpl.
      * rewrite Et. tally.
      * rewrite K, Et. tally.
      * rewrite K, Ep.
        apply Forall_app. split; [|constructor; [reflexivity | constructor]].
        apply Forall_app. split; [now apply Forall_filter | now apply owner_ok_any].
      * rewrite Et, Ep, Tm, length_app. tally.
      * rewrite Sf. exact Hf.
    + destruct Hk as (_ & -> & _). rewrite Hop. specialize (Hdrop eq_refl).
      constructor; simpl.
      * rewrite Et. tally.
      * rewrite K, Et. tally.
      * rewrite K, Ep.
        apply Forall_app. split; [|constructor; [reflexivity | constructor]].
        apply Forall_app. split; [now apply Forall_filter | now apply owner_ok_any].
      * rewrite Et, Ep, Tm, length_app. tally.
      * rewrite Sf. exact Hf.
    + destruct Hk as (-> & _).
      cbn [sus_owner sus_then exec].
      constructor; rewrite ?trace_settle.
      * destruct po; cbn [settle trace]; rewrite Et; tally.
      * destruct po; cbn [settle trace connected]; rewrite K, Et; tally.
      * destruct po; cbn [settle pending connected]; rewrite K, Ep;
          (apply Forall_app; split; [now apply Forall_filter | now apply owner_ok_any]).
      * destruct po; cbn [settle pending timers trace]; rewrite Et, Ep, Tm; tally.
      * destruct po; cbn [settle on_scanningfinished]; rewrite Sf; exact Hf.
  - destruct (find (waits_for id) (pending s)) as [p|] eqn:Ef; [|exact HO].
    pose proof (found_parked cxt id s p HI Ef) as Hk.
    set (keep := fun q => negb (waits_for id q)).
    pose proof (parked_actions_filter_le keep (pending s)) as Hle.
    assert (Hkeep : Forall (owner_ok (connected s)) (filter keep (pending s)))
      by now apply Forall_filter.
    destruct (sus_catch p) as [h|] eqn:Ec.
    + unfold parked_ok in Hk. destruct (sus_request p);
        try (destruct Hk as (_ & Hk); congruence);
        try (destruct Hk as (_ & _ & Hk & _); congruence).
      destruct Hk as (-> & _ & Hh). rewrite Ec in Hh. inversion Hh; subst h.
      constructor; simpl; auto; tally.
    + destruct (sus_owner p); constructor; simpl; auto; tally.
  - apply order_adds with (s := s); [exact HO | now apply adds_emit with (cxt := cxt)].
  - unfold emit_scanningfinished. destruct (link s) eqn:El; [|exact HO].
    rewrite Hf. simpl.
    constructor; simpl; auto; destruct (connected s); tally.
  - constructor; simpl; auto.
  - destruct (find (has_id id) (timers s)) as [t|] eqn:Ef; [|exact HO].
    destruct (due t (clock s)); [|exact HO].
    destruct (found_timer cxt id s t HI Ef) as (d & Ecb & _).
    pose proof (timers_drop id (timers s) t Ef) as Hdrop.
    rewrite Ecb. constructor; simpl; auto.
    + tally.
    + destruct (connected s); tally.
    + apply Forall_app. split; [exact Hp | constructor; [reflexivity | constructor]].
    + tally.
  - unfold emit_click. rewrite (inv_clicks cxt s HI). exact HO.
  - constructor; simpl; auto.
  - destruct (existsb _ _); [|exact HO]. constructor; simpl; auto.
Qed.

Lemma order_steps cxt (sched : list event) (s : state) :
  Inv cxt s -> Order s -> Inv cxt (steps sched s) /\ Order (steps sched s).
Proof.
  revert s. induction sched as [|e sched IH]; intros s HI HO; simpl.
  - split; assumption.
  - apply IH; [apply (step_ok cxt e s HI) | now apply order_step with (cxt := cxt)].
Qed.

Lemma boot_order new_URL cxt url :
  new_URL (connectAddress cxt) = Some url ->
  Order (exec Main (lovetownConnect new_URL cxt) init).
Proof.
  intros E. rewrite (boot_connecting new_URL cxt url E).
  constructor; simpl; auto.
  constructor; [|constructor]. unfold owner_ok. simpl. auto.
Qed.

(** A session either never started (the address did not parse) or is in both
    invariants. *)
Lemma session_order new_URL cxt (sched : list event) :
  let s := run (lovetownConnect new_URL cxt) sched in
  (new_URL (connectAddress cxt) = None /\ dead s /\ trace s = [])
  \/ (exists url, new_URL (connectAddress cxt) = Some url /\ Inv cxt s /\ Order s).
Proof.
  cbv zeta.
  destruct (new_URL (connectAddress cxt)) as [url|] eqn:E.
  - right. exists url. split; [reflexivity|]. unfold run.
    apply order_steps; [now apply boot_inv with (url := url)
                       | now apply boot_order with (url := url)].
  - left. split; [reflexivity|]. unfold run. rewrite (boot_rejected new_URL cxt E).
    assert (Hdead : dead (settle Main (Rejected invalid_url) init))
      by (unfold dead; simpl; auto).
    destruct (dead_steps sched _ Hdead) as (H1 & H2 & _). split; [exact H1 | exact H2].
Qed.

(** ** C5: the connection attempt fails *)
























(** ** C8: the vibration scenario *)



























Lemma truthy_vibrate_some v x : truthy_vibrate v = Some x -> v = Some x.
Proof.
  destruct v as [[n|l]|]; simpl; try discriminate; auto.
  destruct (truthy_number n); [auto | discriminate].
Qed.

Lemma truthy_linear_some v x : truthy_linear v = Some x -> v = Some x.
Proof.
  destruct v as [[n|l]|]; simpl; try discriminate; auto.
  destruct (truthy_number n); [auto | discriminate].
Qed.

Lemma truthy_duration_some v x : truthy_duration v = Some x -> v = Some x.
Proof.
  destruct v as [n|]; simpl; try discriminate.
  destruct (truthy_number n); [auto | discriminate].
Qed.

(** ** What [lovetownConnect] sends, and how often *)

(** X1: every action command of a [lovetownConnect] session carries the
    options' own payload, unchanged, to a device that has the matching
    actuator: [vibrate] the [vibrate] field, [linear] the [linear] and
    [linearDuration] fields; and a session sends one kind of action command
    only: no [linear] command, or else no [vibrate] command. *)
Theorem command_payloads
    (new_URL : string -> option string) (cxt : LovetownOptions) (sched : list event) :
  let sent := requests (run (lovetownConnect new_URL cxt) sched) in
  Forall (fun r =>
            match r with
            | Vibrate d speed => vibrate cxt = Some speed /\ vibrateAttributes d <> []
            | Linear d position duration =>
                linear cxt = Some position /\ linearDuration cxt = Some duration
                /\ linearAttributes d <> []
            | _ => True
            end) sent
  /\ (Forall (fun r => is_linear r = false) sent
      \/ Forall (fun r => is_vibrate r = false) sent).
Proof.
  intros sent. split.
  - apply Forall_forall. intros r Hin. apply sent_eligible in Hin.
    destruct r; simpl in Hin; auto.
    + destruct Hin as (Hv & Hne). split; [now apply truthy_vibrate_some | exact Hne].
    + destruct Hin as (_ & Hp & Hd & Hne).
      split; [now apply truthy_linear_some | split;
              [now apply truthy_duration_some | exact Hne]].
  - destruct (truthy_vibrate (vibrate cxt)) as [speed|] eqn:Ev.
    + left. apply Forall_forall. intros r Hin. apply sent_eligible in Hin.
      destruct r; try reflexivity. simpl in Hin. destruct Hin as (Hn & _). congruence.
    + right. apply Forall_forall. intros r Hin. apply sent_eligible in Hin.
      destruct r; try reflexivity. simpl in Hin. destruct Hin as (Hn & _). congruence.
Qed.

(** X2: a [lovetownConnect] session sends the connect request once when the
    address parses and never otherwise, and it sends [startScanning] once,
    exactly when [connect] was fulfilled: no reconnection and no second scan,
    whatever the schedule. *)
Theorem connect_once_scan_once
    (new_URL : string -> option string) (cxt : LovetownOptions) (sched : list event) :
  let s := run (lovetownConnect new_URL cxt) sched in
  count_sent is_connect (trace s)
  = match new_URL (connectAddress cxt) with Some _ => 1 | None => 0 end
  /\ count_sent is_start (trace s) = (if connected s then 1 else 0).
Proof.
  intros s. pose proof (session_order new_URL cxt sched) as H. fold s in H.
  cbv zeta in H. destruct H as [(E & _ & Et)|(url & E & _ & HO)]; rewrite E.
  - rewrite Et. split; [reflexivity|].
    unfold s, run. rewrite (boot_rejected new_URL cxt E), dead_connected;
      [reflexivity | unfold dead; simpl; auto].
  - split; [apply (ord_connects s HO) | apply (ord_starts s HO)].
Qed.

(** X3: the stop is one-shot.  In every [lovetownConnect] session the [stop]
    commands sent, the timers still armed and the action commands still
    waiting for their answer are together no more than the action commands
    sent: each action command pays for at most one timer, and each timer for
    at most one [stop]. *)
Theorem one_stop_per_command
    (new_URL : string -> option string) (cxt : LovetownOptions) (sched : list event) :
  let s := run (lovetownConnect new_URL cxt) sched in
  count_sent is_stop (trace s) + List.length (timers s) + parked_actions (pending s)
  <= dispatches (trace s).
Proof.
  intros s. pose proof (session_order new_URL cxt sched) as H. fold s in H.
  cbv zeta in H. destruct H as [(_ & (_ & Hp & Ht & _) & Et)|(url & _ & _ & HO)].
  - rewrite Et, Hp, Ht. apply Nat.le_refl.
  - apply (ord_stops s HO).
Qed.

(** Announcing devices adds at most one request per device, at the same
    time. *)
Lemma emit_all_trace cxt known s :
  Inv cxt s ->
  exists mid,
    trace (fold_left (fun s' d => emit_deviceadded d s') known s) = trace s ++ mid
    /\ List.length mid <= List.length known
    /\ clock (fold_left (fun s' d => emit_deviceadded d s') known s) = clock s.
Proof.
  revert s. induction known as [|d known IH]; intros s HI; simpl.
  - exists []. rewrite app_nil_r. auto.
  - destruct (emit_deviceadded_ok cxt d s HI) as (H1 & _ & (Hc & _) & _).
    destruct (IH _ H1) as (mid & Et & Hlen & Hck).
    assert (Hone : exists one, trace (emit_deviceadded d s) = trace s ++ one
                               /\ List.length one <= 1).
    { unfold emit_deviceadded. destruct (link s).
      - rewrite (inv_deviceadded cxt s HI). simpl.
        destruct (listener_cases cxt d) as [(r & _ & _ & E)|E]; rewrite E; simpl;
          eexists; split; try reflexivity; simpl; lia.
      - exists []. rewrite app_nil_r. simpl. split; [reflexivity | lia]. }
    destruct Hone as (one & Eo & Lo).
    exists (one ++ mid). rewrite Et, Eo, <- app_assoc, length_app.
    split; [reflexivity | split; [lia | congruence]].
Qed.

(** ** Where the other rejections of [lovetownConnect] go *)

(** X4: [startScanning] is awaited outside the [try]: when the server accepts
    it the entry point's promise is fulfilled, and when the server rejects it
    the promise is rejected with the server's error, with nothing logged and
    nothing left unhandled (unlike a failed connect, which is logged and
    fulfils the promise). *)
Theorem start_scanning_outcome
    (new_URL : string -> option string) (cxt : LovetownOptions) (sched : list event)
    (id : nat) (p : suspended) :
  let s := run (lovetownConnect new_URL cxt) sched in
  find (waits_for id) (pending s) = Some p ->
  sus_request p = StartScanning ->
  (forall known, result (step (Resolved id known) s) = Some Fulfilled)
  /\ (forall e,
        let s' := step (Failed id e) s in
        result s' = Some (Rejected e) /\ trace s' = trace s
        /\ unhandled s' = unhandled s).
Proof.
  intros s Hf Hr.
  pose proof (session_order new_URL cxt sched) as H. fold s in H. cbv zeta in H.
  destruct H as [(_ & (_ & Hp & _) & _)|(url & _ & HI & HO)].
  - rewrite Hp in Hf. discriminate.
  - pose proof (found_parked cxt id s p HI Hf) as Hk.
    destruct (find_some _ _ Hf) as (Hin & _).
    pose proof (proj1 (Forall_forall _ _) (ord_parked s HO) p Hin) as Hop.
    unfold parked_ok in Hk. unfold owner_ok in Hop. rewrite Hr in Hk, Hop.
    destruct Hk as (Hth & Hc). destruct Hop as (Hop & _). split.
    + intros known. simpl. rewrite Hf, Hth, Hop. reflexivity.
    + intros e. simpl. rewrite Hf, Hc, Hop. simpl. auto.
Qed.

Lemma start_scanning_outcome_witness :
  let s := run (lovetownConnect sample_URL (vibrate_request 1 3000))
               [Resolved 0 [toy]] in
  (forall known, result (step (Resolved 2 known) s) = Some Fulfilled)
  /\ (forall e,
        let s' := step (Failed 2 e) s in
        result s' = Some (Rejected e) /\ trace s' = trace s
        /\ unhandled s' = unhandled s).
Proof.
  exact (start_scanning_outcome sample_URL (vibrate_request 1 3000) [Resolved 0 [toy]] 2
           {| sus_id := 2; sus_owner := Main; sus_request := StartScanning;
              sus_then := Return; sus_catch := None |} eq_refl eq_refl).
Defined.

(** X5: the listener and the timer callback await [stopScanning] and [stop]
    with no [catch] either: when the server rejects one of them the error is
    left unhandled; nothing is logged or sent, the entry point's promise and
    the armed timers are untouched, and the other parked tasks stay parked. *)
Theorem stop_rejections_unhandled
    (new_URL : string -> option string) (cxt : LovetownOptions) (sched : list event)
    (id : nat) (p : suspended) (e : error) :
  let s := run (lovetownConnect new_URL cxt) sched in
  find (waits_for id) (pending s) = Some p ->
  sus_request p = StopScanning \/ (exists d, sus_request p = Stop d) ->
  let s' := step (Failed id e) s in
  unhandled s' = unhandled s ++ [e]
  /\ trace s' = trace s
  /\ result s' = result s
  /\ timers s' = timers s
  /\ pending s' = filter (fun q => negb (waits_for id q)) (pending s).
Proof.
  intros s Hf Hr s'. subst s'.
  pose proof (session_order new_URL cxt sched) as H. fold s in H. cbv zeta in H.
  destruct H as [(_ & (_ & Hp & _) & _)|(url & _ & HI & HO)].
  - rewrite Hp in Hf. discriminate.
  - pose proof (found_parked cxt id s p HI Hf) as Hk.
    destruct (find_some _ _ Hf) as (Hin & _).
    pose proof (proj1 (Forall_forall _ _) (ord_parked s HO) p Hin) as Hop.
    unfold parked_ok in Hk. unfold owner_ok in Hop.
    simpl. rewrite Hf.
    destruct Hr as [Hr|(d & Hr)]; rewrite Hr in Hk, Hop;
      destruct Hk as (_ & Hc); rewrite Hc, Hop; simpl; auto.
Qed.

Lemma stop_rejections_unhandled_witness :
  let s := run (lovetownConnect sample_URL (vibrate_request 1 3000))
               [Resolved 0 []; DeviceAdded toy; Resolved 2 []; Tick 3000;
                TimerFired 0] in
  let s' := step (Failed 4 "device gone") s in
  unhandled s' = unhandled s ++ ["device gone"]
  /\ trace s' = trace s
  /\ result s' = result s
  /\ timers s' = timers s
  /\ pending s' = filter (fun q => negb (waits_for 4 q)) (pending s).
Proof.
  exact (stop_rejections_unhandled sample_URL (vibrate_request 1 3000)
           [Resolved 0 []; DeviceAdded toy; Resolved 2 []; Tick 3000; TimerFired 0] 4
           {| sus_id := 4; sus_owner := Callback; sus_request := Stop toy;
              sus_then := Return; sus_catch := None |}
           "device gone" eq_refl (or_intror (ex_intro _ toy eq_refl))).
Defined.

(** ** The other listener, and the end of the first *)

(** X6: in every [lovetownConnect] session the [scanningfinished]
    notification does one thing: on a client whose socket is open it logs
    ["Scanning Finished"], once; it sends nothing, arms nothing and wakes
    nothing, and a client whose socket is not open does not hear it. *)
Theorem scanning_finished_only_logs
    (new_URL : string -> option string) (cxt : LovetownOptions) (sched : list event) :
  let s := run (lovetownConnect new_URL cxt) sched in
  step ScanningFinished s
  = if link s then observe (Logged "Scanning Finished") s else s.
Proof.
  intros s. simpl. unfold emit_scanningfinished.
  destruct (link s) eqn:El; [|reflexivity].
  pose proof (session_order new_URL cxt sched) as H. fold s in H. cbv zeta in H.
  destruct H as [(_ & (Hl & _) & _)|(url & _ & _ & HO)].
  - congruence.
  - rewrite (ord_scanningfinished s HO). reflexivity.
Qed.

(** X7: when the server accepts a parked action command, the listener asks it
    to stop scanning in the same turn: the turn's last request is
    [stopScanning], sent at the time of the acceptance, after whatever the
    devices announced with the answer made the listener send. *)
Theorem scan_stops_on_acceptance
    (new_URL : string -> option string) (cxt : LovetownOptions) (sched : list event)
    (id : nat) (p : suspended) (d : ButtplugClientDevice)
    (known : list ButtplugClientDevice) :
  let s := run (lovetownConnect new_URL cxt) sched in
  find (waits_for id) (pending s) = Some p ->
  target (sus_request p) = Some d ->
  exists mid,
    trace (step (Resolved id known) s)
    = trace s ++ mid ++ [(clock s, Sent StopScanning)]
    /\ List.length mid <= List.length known.
Proof.
  intros s Hf Ht.
  pose proof (session_order new_URL cxt sched) as H. fold s in H. cbv zeta in H.
  destruct H as [(_ & (_ & Hp & _) & _)|(url & _ & HI & _)].
  - rewrite Hp in Hf. discriminate.
  - pose proof (found_parked cxt id s p HI Hf) as Hk. unfold parked_ok in Hk.
    simpl. rewrite Hf.
    set (s1 := with_pending (filter (fun q => negb (waits_for id q)) (pending s)) s).
    assert (H1 : Inv cxt s1) by (apply inv_with_pending; [exact HI | apply incl_filter]).
    assert (Hnc : is_connect (sus_request p) = false)
      by (destruct (sus_request p); try discriminate; reflexivity).
    rewrite Hnc.
    destruct (emit_all_trace cxt known s1 H1) as (mid & Et & Hlen & Hc).
    set (s3 := fold_left (fun s' d0 => emit_deviceadded d0 s') known s1) in *.
    assert (Hshape : sus_owner p = Callback /\ sus_then p = after_dispatch cxt d).
    { destruct (sus_request p); try discriminate; simpl in Ht; inversion Ht; subst;
        destruct Hk as (Ho & Hth & _); auto. }
    destruct Hshape as (-> & ->). simpl.
    exists mid. rewrite Et, Hc, <- app_assoc. split; [reflexivity | exact Hlen].
Qed.

Lemma scan_stops_on_acceptance_witness :
  let s := run (lovetownConnect sample_URL (vibrate_request 1 3000))
               [Resolved 0 []; DeviceAdded toy; Tick 25] in
  exists mid,
    trace (step (Resolved 2 [gamepad]) s)
    = trace s ++ mid ++ [(clock s, Sent StopScanning)]
    /\ List.length mid <= List.length [gamepad].
Proof.
  exact (scan_stops_on_acceptance sample_URL (vibrate_request 1 3000)
           [Resolved 0 []; DeviceAdded toy; Tick 25] 2
           {| sus_id := 2; sus_owner := Callback;
              sus_request := Vibrate toy (Speed 1);
              sus_then := after_dispatch (vibrate_request 1 3000) toy;
              sus_catch := None |}
           toy [gamepad] eq_refl eq_refl).
Defined.

(** ** The invariant of a [lovetownRuntime] session *)

Lemma runtime_entry_ok_mono tr tr' x :
  incl tr tr' -> runtime_entry_ok tr x -> runtime_entry_ok tr' x.
Proof.
  intros Hi. unfold runtime_entry_ok. destruct (snd x) as [r|m]; [|auto].
  destruct r; auto.
  intros (t0 & Hv & Hle & Hr). exists t0. split; [apply Hi, Hv | auto].
Qed.

Lemma runtime_parked_ok_mono tr tr' p :
  incl tr tr' -> runtime_parked_ok tr p -> runtime_parked_ok tr' p.
Proof.
  intros Hi. unfold runtime_parked_ok. destruct (sus_request p); auto.
  intros (Ho & Hk & Hc & t0 & Hv). repeat split; auto. exists t0. apply Hi, Hv.
Qed.

Lemma runtime_timer_ok_mono tr tr' t :
  incl tr tr' -> runtime_timer_ok tr t -> runtime_timer_ok tr' t.
Proof.
  intros Hi (d & Hc & Hd & t0 & Hv & Hle). exists d. repeat split; auto.
  exists t0. split; [apply Hi, Hv | exact Hle].
Qed.

Lemma rinv_suspend o r k h s :
  RInv s ->
  runtime_entry_ok (trace s ++ [(clock s, Sent r)]) (clock s, Sent r) ->
  runtime_parked_ok (trace s ++ [(clock s, Sent r)])
                    {| sus_id := next_id s; sus_owner := o; sus_request := r;
                       sus_then := k; sus_catch := h |} ->
  RInv (suspend o r k h s).
Proof.
  intros [Hd Hf Hc Hp Ht Htr Hst] He Hk.
  assert (Hi : incl (trace s) (trace s ++ [(clock s, Sent r)]))
    by apply incl_appl, incl_refl.
  constructor; simpl; auto.
  - apply Forall_app. split; [|constructor; [exact Hk | constructor]].
    eapply Forall_impl; [|exact Hp]. intros a. now apply runtime_parked_ok_mono.
  - eapply Forall_impl; [|exact Ht]. intros a. now apply runtime_timer_ok_mono.
  - apply Forall_app. split; [|constructor; [exact He | constructor]].
    eapply Forall_impl; [|exact Htr]. intros a. now apply runtime_entry_ok_mono.
  - apply Forall_app. split; [exact Hst|].
    constructor; [simpl; apply N.le_refl | constructor].
Qed.

Lemma rinv_arm cb d s :
  RInv s ->
  runtime_timer_ok (trace s) {| timer_id := next_timer s; armed_at := clock s;
                                delay := d; callback := cb |} ->
  RInv (arm cb d s).
Proof.
  intros [Hd Hf Hc Hp Ht Htr Hst] Hk. constructor; simpl; auto.
  apply Forall_app. split; [exact Ht | constructor; [exact Hk | constructor]].
Qed.

Lemma rinv_settle o r s : RInv s -> RInv (settle o r s).
Proof.
  intros [Hd Hf Hc Hp Ht Htr Hst]. destruct o, r; constructor; simpl; auto.
Qed.

Lemma rinv_log m s : RInv s -> RInv (observe (Logged m) s).
Proof.
  intros [Hd Hf Hc Hp Ht Htr Hst].
  assert (Hi : incl (trace s) (trace s ++ [(clock s, Logged m)]))
    by apply incl_appl, incl_refl.
  constructor; simpl; auto.
  - eapply Forall_impl; [|exact Hp]. intros a. now apply runtime_parked_ok_mono.
  - eapply Forall_impl; [|exact Ht]. intros a. now apply runtime_timer_ok_mono.
  - apply Forall_app. split; [|constructor; [exact I | constructor]].
    eapply Forall_impl; [|exact Htr]. intros a. now apply runtime_entry_ok_mono.
  - apply Forall_app. split; [exact Hst|].
    constructor; [simpl; apply N.le_refl | constructor].
Qed.

Lemma rinv_with_pending l s : RInv s -> incl l (pending s) -> RInv (with_pending l s).
Proof.
  intros [Hd Hf Hc Hp Ht Htr Hst] Hi. constructor; simpl; auto.
  apply Forall_forall. intros p Hin.
  exact (proj1 (Forall_forall _ _) Hp p (Hi p Hin)).
Qed.

Lemma rinv_with_timers l s : RInv s -> incl l (timers s) -> RInv (with_timers l s).
Proof.
  intros [Hd Hf Hc Hp Ht Htr Hst] Hi. constructor; simpl; auto.
  apply Forall_forall. intros p Hin.
  exact (proj1 (Forall_forall _ _) Ht p (Hi p Hin)).
Qed.

Lemma rinv_with_link b s : RInv s -> RInv (with_link b s).
Proof. intros [Hd Hf Hc Hp Ht Htr Hst]. constructor; simpl; auto. Qed.

Lemma rinv_with_connected b s : RInv s -> RInv (with_connected b s).
Proof. intros [Hd Hf Hc Hp Ht Htr Hst]. constructor; simpl; auto. Qed.

Lemma rinv_with_dom l s : RInv s -> RInv (with_dom l s).
Proof. intros [Hd Hf Hc Hp Ht Htr Hst]. constructor; simpl; auto. Qed.

Lemma rinv_with_clock n s : (clock s <= n)%N -> RInv s -> RInv (with_clock n s).
Proof.
  intros Hle [Hd Hf Hc Hp Ht Htr Hst]. constructor; simpl; auto.
  eapply Forall_impl; [|exact Hst]. simpl. intros a Ha. lia.
Qed.

(** *** The listener registers handlers and stops the scan *)

Lemma exec_add_handlers o d (links : list anchor) (s : state) :
  exec o (fold_right (fun a k => AddClickListener a (click_listener d) k)
                     (Await StopScanning Return) links) s
  = suspend o StopScanning Return None
            (with_clicks (clicks s ++ handlers_for d links) s).
Proof.
  revert s. induction links as [|a links IH]; intros s; simpl.
  - unfold with_clicks. simpl. rewrite app_nil_r. reflexivity.
  - rewrite IH. unfold with_clicks, listen_click. simpl.
    rewrite <- app_assoc. reflexivity.
Qed.

Lemma exec_runtime_listener o d (s : state) :
  exec o (runtime_listener d) s
  = suspend o StopScanning Return None (registered d s).
Proof.
  unfold runtime_listener, registered.
  destruct (0 <? List.length (vibrateAttributes d)); [|reflexivity].
  simpl. apply exec_add_handlers.
Qed.

Lemma handlers_for_ok d links :
  vibrateAttributes d <> [] -> Forall handler_ok (handlers_for d links).
Proof.
  intros Hne. unfold handlers_for. apply Forall_forall. intros h Hin.
  apply in_map_iff in Hin. destruct Hin as (a & <- & _). exists d. auto.
Qed.

Lemma rinv_registered d s : RInv s -> RInv (registered d s).
Proof.
  intros HI. unfold registered.
  destruct (0 <? List.length (vibrateAttributes d)) eqn:El; [|exact HI].
  destruct HI as [Hd Hf Hc Hp Ht Htr Hst]. constructor; simpl; auto.
  apply Forall_app. split; [exact Hc|]. apply handlers_for_ok.
  intros E. rewrite E in El. discriminate.
Qed.

Lemma rinv_emit d s : RInv s -> RInv (emit_deviceadded d s).
Proof.
  intros HI. unfold emit_deviceadded. destruct (link s); [|exact HI].
  rewrite (rinv_deviceadded s HI). simpl. rewrite exec_runtime_listener.
  apply rinv_suspend; [now apply rinv_registered | exact I |].
  unfold runtime_parked_ok. simpl. auto.
Qed.

Lemma rinv_emit_all known s :
  RInv s -> RInv (fold_left (fun s' d => emit_deviceadded d s') known s).
Proof.
  revert s. induction known as [|d known IH]; intros s HI; simpl; [exact HI|].
  apply IH, rinv_emit, HI.
Qed.

Lemma rstamp_le_clock s t o : RInv s -> In (t, o) (trace s) -> (t <= clock s)%N.
Proof.
  intros HI Hin. exact (proj1 (Forall_forall _ _) (rinv_stamps s HI) (t, o) Hin).
Qed.

Lemma announces_refl s : announces s s.
Proof.
  exists [], [], []. rewrite !app_nil_r. repeat split; auto.
Qed.

Lemma announces_trans s s' s'' : announces s s' -> announces s' s'' -> announces s s''.
Proof.
  intros (n1 & p1 & c1 & Et1 & Ep1 & Ec1 & F1 & G1 & T1 & N1 & K1 & L1)
         (n2 & p2 & c2 & Et2 & Ep2 & Ec2 & F2 & G2 & T2 & N2 & K2 & L2).
  exists (n1 ++ n2), (p1 ++ p2), (c1 ++ c2).
  rewrite Et2, Et1, Ep2, Ep1, Ec2, Ec1, !app_assoc.
  repeat split; try congruence; apply Forall_app; split; assumption.
Qed.

Lemma announces_emit d s : RInv s -> announces s (emit_deviceadded d s).
Proof.
  intros HI. unfold emit_deviceadded. destruct (link s); [|apply announces_refl].
  rewrite (rinv_deviceadded s HI). simpl. rewrite exec_runtime_listener.
  unfold registered. destruct (0 <? List.length (vibrateAttributes d)).
  - exists [(clock s, Sent StopScanning)],
           [{| sus_id := next_id s; sus_owner := Callback;
               sus_request := StopScanning; sus_then := Return; sus_catch := None |}],
           (handlers_for d (dom s)).
    simpl. repeat split; auto.
  - exists [(clock s, Sent StopScanning)],
           [{| sus_id := next_id s; sus_owner := Callback;
               sus_request := StopScanning; sus_then := Return; sus_catch := None |}],
           [].
    simpl. rewrite app_nil_r. repeat split; auto.
Qed.

Lemma announces_emit_all known s :
  RInv s -> announces s (fold_left (fun s' d => emit_deviceadded d s') known s).
Proof.
  revert s. induction known as [|d known IH]; intros s HI; simpl.
  - apply announces_refl.
  - eapply announces_trans; [now apply announces_emit | apply IH, rinv_emit, HI].
Qed.

Lemma announces_incl s s' : announces s s' -> incl (trace s) (trace s').
Proof. intros (n & p & c & Et & _). rewrite Et. apply incl_appl, incl_refl. Qed.

(** *** A click runs the handlers of the anchor *)

Lemma rinv_click_handler d s :
  RInv s -> vibrateAttributes d <> [] -> RInv (exec Callback (click_listener d) s).
Proof.
  intros HI Hne. simpl. apply rinv_suspend; [exact HI | |].
  - unfold runtime_entry_ok. simpl. auto.
  - unfold runtime_parked_ok. simpl. repeat split; auto.
    exists (clock s). apply in_or_app. right. left. reflexivity.
Qed.

Lemma rinv_run_handlers a (l : list (anchor * task)) (s : state) :
  Forall handler_ok l -> RInv s ->
  RInv (fold_left (fun s' h => if Nat.eqb (fst h) a then exec Callback (snd h) s' else s')
                  l s).
Proof.
  revert s. induction l as [|h l IH]; intros s Hl HI; simpl; [exact HI|].
  inversion Hl as [|? ? (d & Eh & Hne) Hl']; subst. unfold anchor in Eh.
  apply IH; [exact Hl'|].
  match goal with |- context [if ?b then _ else _] => destruct b end; [|exact HI].
  rewrite Eh. now apply rinv_click_handler.
Qed.

(** *** Every turn of the loop keeps the invariant *)

Lemma rfound_parked id s p :
  RInv s -> find (waits_for id) (pending s) = Some p -> runtime_parked_ok (trace s) p.
Proof.
  intros HI Hf. apply find_some in Hf.
  exact (proj1 (Forall_forall _ _) (rinv_pending s HI) p (proj1 Hf)).
Qed.

Lemma rfound_timer id s t :
  RInv s -> find (has_id id) (timers s) = Some t -> runtime_timer_ok (trace s) t.
Proof.
  intros HI Hf. apply find_some in Hf.
  exact (proj1 (Forall_forall _ _) (rinv_timers s HI) t (proj1 Hf)).
Qed.

Lemma rresume_ok (p : suspended) (s : state) :
  RInv s -> runtime_parked_ok (trace s) p ->
  RInv (exec (sus_owner p) (sus_then p) s).
Proof.
  intros HI Hp. destruct p as [pid po pr pk pc]. unfold runtime_parked_ok in Hp.
  simpl in *. destruct pr as [url| | |d v|d pos dur|d]; simpl in Hp.
  - destruct Hp as (-> & -> & _). simpl.
    apply rinv_suspend; [exact HI | exact I | unfold runtime_parked_ok; simpl; auto].
  - destruct Hp as (_ & -> & _). simpl. now apply rinv_settle.
  - destruct Hp as (_ & -> & _). simpl. now apply rinv_settle.
  - destruct Hp as (-> & -> & _ & t0 & Hv). simpl.
    apply rinv_arm; [exact HI|]. exists d. simpl. repeat split; auto.
    exists t0. split; [exact Hv | eapply rstamp_le_clock; eauto].
  - contradiction.
  - destruct Hp as (_ & -> & _). simpl. now apply rinv_settle.
Qed.

Lemma rstep_ok (e : event) (s : state) : RInv s -> RInv (step e s).
Proof.
  intros HI. destruct e as [id known|id err|d| |ms|id|a|links| ]; simpl.
  - destruct (find (waits_for id) (pending s)) as [p|] eqn:Ef; [|exact HI].
    pose proof (rfound_parked id s p HI Ef) as Hp.
    set (s1 := with_pending (filter (fun q => negb (waits_for id q)) (pending s)) s).
    assert (H1 : RInv s1) by (apply rinv_with_pending; [exact HI | apply incl_filter]).
    set (s2 := if is_connect (sus_request p)
               then with_connected true (with_link true s1) else s1).
    assert (H2 : RInv s2)
      by (unfold s2; destruct (is_connect _); [apply rinv_with_connected, rinv_with_link|]; exact H1).
    pose proof (rinv_emit_all known s2 H2) as H3.
    apply rresume_ok; [exact H3|].
    eapply runtime_parked_ok_mono; [|exact Hp].
    assert (E2 : trace s2 = trace s) by (unfold s2; destruct (is_connect _); reflexivity).
    rewrite <- E2. apply announces_incl. now apply announces_emit_all.
  - destruct (find (waits_for id) (pending s)) as [p|] eqn:Ef; [|exact HI].
    pose proof (rfound_parked id s p HI Ef) as Hp.
    set (s1 := with_pending (filter (fun q => negb (waits_for id q)) (pending s)) s).
    assert (H1 : RInv s1) by (apply rinv_with_pending; [exact HI | apply incl_filter]).
    destruct (sus_catch p) as [h|] eqn:Ec; [|now apply rinv_settle].
    unfold runtime_parked_ok in Hp. destruct (sus_request p);
      try contradiction;
      try (destruct Hp as (_ & _ & Hp); congruence);
      try (destruct Hp as (_ & _ & Hp & _); congruence).
    destruct Hp as (-> & _ & Hc). rewrite Ec in Hc. inversion Hc; subst h.
    cbn [exec]. apply rinv_settle, rinv_log, H1.
  - now apply rinv_emit.
  - unfold emit_scanningfinished. destruct (link s); [|exact HI].
    rewrite (rinv_scanningfinished s HI). simpl. now apply rinv_log.
  - apply rinv_with_clock; [simpl; lia | exact HI].
  - destruct (find (has_id id) (timers s)) as [t|] eqn:Ef; [|exact HI].
    destruct (due t (clock s)) eqn:Ed; [|exact HI].
    destruct (rfound_timer id s t HI Ef) as (d & Ecb & Edl & t0 & Hv & Hle).
    rewrite Ecb. simpl.
    set (s1 := with_timers (filter (fun u => negb (has_id id u)) (timers s)) s).
    assert (H1 : RInv s1) by (apply rinv_with_timers; [exact HI | apply incl_filter]).
    apply (rinv_suspend Callback (Stop d) Return None s1);
      [exact H1 | | unfold runtime_parked_ok; simpl; auto].
    unfold runtime_entry_ok. simpl. exists t0.
    assert (Ht0 : (t0 <= clock s)%N) by (eapply rstamp_le_clock; eauto).
    split; [|split; [exact Ht0|]].
    + apply in_or_app. left. exact Hv.
    + unfold due in Ed. rewrite Edl in Ed. eapply reached_mono; [|exact Ed]. lia.
  - unfold emit_click. apply rinv_run_handlers; [apply (rinv_clicks s HI) | exact HI].
  - now apply rinv_with_dom.
  - destruct (existsb _ _); [now apply rinv_with_link | exact HI].
Qed.

Lemma rsteps_ok (sched : list event) (s : state) : RInv s -> RInv (steps sched s).
Proof.
  revert s. induction sched as [|e sched IH]; intros s HI; simpl; [exact HI|].
  apply IH, rstep_ok, HI.
Qed.

Lemma runtime_boot_connecting new_URL address url :
  new_URL address = Some url ->
  exec Main (lovetownRuntime new_URL address) init
  = suspend Main (Connect url) (Await StartScanning Return)
            (Some (fun e => ConsoleLog e Return))
            (listen_scanningfinished scanningfinished_listener
               (listen_deviceadded runtime_listener init)).
Proof. intros E. unfold lovetownRuntime. rewrite E. reflexivity. Qed.

Lemma runtime_session new_URL address (sched : list event) :
  let s := run (lovetownRuntime new_URL address) sched in
  (new_URL address = None /\ dead s /\ trace s = [])
  \/ (exists url, new_URL address = Some url /\ RInv s).
Proof.
  cbv zeta. destruct (new_URL address) as [url|] eqn:E.
  - right. exists url. split; [reflexivity|]. unfold run. apply rsteps_ok.
    rewrite (runtime_boot_connecting new_URL address url E).
    constructor; simpl; auto.
    + constructor; [|constructor]. unfold runtime_parked_ok. simpl. auto.
    + constructor; [|constructor]. exact I.
    + constructor; [|constructor]. simpl. lia.
  - left. split; [reflexivity|]. unfold run, lovetownRuntime. rewrite E.
    change (exec Main (Throw invalid_url) init)
      with (settle Main (Rejected invalid_url) init).
    assert (Hdead : dead (settle Main (Rejected invalid_url) init))
      by (unfold dead; simpl; auto).
    destruct (dead_steps sched _ Hdead) as (H1 & H2 & _). split; [exact H1 | exact H2].
Qed.

(** ** What [lovetownRuntime] sends *)

(** X8: in every [lovetownRuntime] session, every [vibrate] command is
    [vibrate(1)] to a device that has a vibration actuator, no [linear]
    command is ever sent, and every [stop] comes at least 3000 milliseconds
    after a [vibrate(1)] to the same device. *)
Theorem runtime_commands
    (new_URL : string -> option string) (address : string) (sched : list event) :
  let s := run (lovetownRuntime new_URL address) sched in
  Forall (fun x =>
            match snd x with
            | Sent (Vibrate d speed) => speed = Speed 1 /\ vibrateAttributes d <> []
            | Sent (Linear _ _ _) => False
            | Sent (Stop d) =>
                exists t0, In (t0, Sent (Vibrate d (Speed 1))) (trace s)
                           /\ (t0 + 3000 <= fst x)%N
            | _ => True
            end) (trace s).
Proof.
  intros s. pose proof (runtime_session new_URL address sched) as H. fold s in H.
  cbv zeta in H. destruct H as [(_ & _ & Et)|(url & _ & HI)].
  - rewrite Et. constructor.
  - eapply Forall_impl; [|apply (rinv_trace s HI)].
    intros x Hx. unfold runtime_entry_ok in Hx. destruct (snd x) as [r|m]; [|exact I].
    destruct r; auto.
    destruct Hx as (t0 & Hv & Hle & Hr). exists t0. split; [exact Hv|].
    rewrite reached_3000 in Hr. apply N.leb_le in Hr. lia.
Qed.

(** X9: when a device is announced to a [lovetownRuntime] session whose
    socket is open, the listener sends no command: for a device with a vibration actuator it
    adds one click handler to every anchor of the document, in document order,
    after the handlers already there (none is ever removed or replaced), for
    any other device it adds none; either way it then asks the server to stop
    scanning, at once.  A session whose socket is not open hears nothing. *)
Theorem runtime_device_announced
    (new_URL : string -> option string) (address : string) (sched : list event)
    (d : ButtplugClientDevice) :
  let s := run (lovetownRuntime new_URL address) sched in
  step (DeviceAdded d) s
  = if link s
    then suspend Callback StopScanning Return None
                 (if 0 <? List.length (vibrateAttributes d)
                  then with_clicks (clicks s ++ handlers_for d (dom s)) s
                  else s)
    else s.
Proof.
  intros s. simpl. unfold emit_deviceadded.
  destruct (link s) eqn:El; [|reflexivity].
  pose proof (runtime_session new_URL address sched) as H. fold s in H.
  cbv zeta in H. destruct H as [(_ & (Hl & _) & _)|(url & _ & HI)].
  - congruence.
  - rewrite (rinv_deviceadded s HI). simpl. apply exec_runtime_listener.
Qed.

Lemma run_handlers_trace a (l : list (anchor * task)) (s : state) :
  Forall handler_ok l ->
  let s' := fold_left (fun s' h => if Nat.eqb (fst h) a
                                   then exec Callback (snd h) s' else s') l s in
  exists new,
    trace s' = trace s ++ new
    /\ List.length new = List.length (filter (fun h => Nat.eqb (fst h) a) l)
    /\ Forall (fun x => exists d, x = (clock s, Sent (Vibrate d (Speed 1)))
                                  /\ vibrateAttributes d <> []) new
    /\ timers s' = timers s /\ clicks s' = clicks s /\ clock s' = clock s.
Proof.
  revert s. induction l as [|h l IH]; intros s Hl; simpl.
  - exists []. rewrite app_nil_r. repeat split; auto.
  - inversion Hl as [|? ? (d & Eh & Hne) Hl']; subst. unfold anchor in *.
    destruct (Nat.eqb (fst h) a) eqn:Ea.
    + rewrite Eh.
      destruct (IH (exec Callback (click_listener d) s) Hl')
        as (new & Et & Hlen & Hf & Htm & Hc & Hk).
      exists ((clock s, Sent (Vibrate d (Speed 1))) :: new).
      split; [rewrite Et; simpl; rewrite <- app_assoc; reflexivity|].
      split; [simpl; rewrite Hlen; reflexivity|].
      split; [constructor; [exists d; auto | exact Hf]|].
      split; [rewrite Htm; reflexivity|].
      split; [rewrite Hc; reflexivity | rewrite Hk; reflexivity].
    + apply IH, Hl'.
Qed.

(** X10: a click on an anchor runs every handler registered on it: the
    session sends one [vibrate(1)] per handler, at the time of the click, each
    to a device with a vibration actuator, and nothing else; no timer is armed
    yet and the handlers stay registered, so a later click sends them all
    again. *)
Theorem runtime_click
    (new_URL : string -> option string) (address : string) (sched : list event)
    (a : anchor) :
  let s := run (lovetownRuntime new_URL address) sched in
  exists new,
    trace (step (Clicked a) s) = trace s ++ new
    /\ List.length new = List.length (handlers_on a s)
    /\ Forall (fun x => exists d, x = (clock s, Sent (Vibrate d (Speed 1)))
                                  /\ vibrateAttributes d <> []) new
    /\ timers (step (Clicked a) s) = timers s
    /\ clicks (step (Clicked a) s) = clicks s.
Proof.
  intros s. pose proof (runtime_session new_URL address sched) as H. fold s in H.
  cbv zeta in H. simpl. unfold emit_click, handlers_on.
  destruct H as [(_ & (_ & _ & _ & Hc) & _)|(url & _ & HI)].
  - rewrite Hc. simpl. exists []. rewrite app_nil_r. repeat split; auto.
  - destruct (run_handlers_trace a (clicks s) s (rinv_clicks s HI))
      as (new & Et & Hlen & Hf & Htm & Hcl & _).
    exists new. auto.
Qed.

(** ** Without a click *)

Lemma stop_scanning_no_dispatch (new : list (N * observation)) :
  Forall (fun x => snd x = Sent StopScanning) new -> dispatches new = 0.
Proof.
  induction 1 as [|x new Hx _ IH]; [reflexivity|].
  unfold dispatches in *. simpl. unfold action_sent at 1. rewrite Hx. simpl. exact IH.
Qed.

Lemma stop_scanning_no_action (newp : list suspended) :
  Forall (fun p => sus_request p = StopScanning) newp -> parked_actions newp = 0.
Proof.
  induction 1 as [|p newp Hp _ IH]; [reflexivity|].
  unfold parked_actions in *. simpl. rewrite Hp. simpl. exact IH.
Qed.

Lemma no_parked_action (l : list suspended) (p : suspended) :
  parked_actions l = 0 -> In p l -> is_action (sus_request p) = false.
Proof.
  unfold parked_actions. intros H0 Hin.
  destruct (is_action (sus_request p)) eqn:E; [|reflexivity].
  assert (Hf : In p (filter (fun q => is_action (sus_request q)) l))
    by (apply filter_In; auto).
  destruct (filter (fun q => is_action (sus_request q)) l); [contradiction | discriminate].
Qed.

Lemma untouched_step (e : event) (s : state) :
  RInv s -> untouched s -> is_click e = false -> untouched (step e s).
Proof.
  intros HI (Hd & Hp & Ht & Hn) Hc. unfold untouched.
  destruct e as [id known|id err|d| |ms|id|a|links| ]; try discriminate; simpl.
  - destruct (find (waits_for id) (pending s)) as [p|] eqn:Ef; [|auto].
    pose proof (rfound_parked id s p HI Ef) as Hk.
    destruct (find_some _ _ Ef) as (Hin & _).
    pose proof (no_parked_action _ p Hp Hin) as Hna.
    set (keep := fun q => negb (waits_for id q)).
    assert (H1 : RInv (with_pending (filter keep (pending s)) s))
      by (apply rinv_with_pending; [exact HI | apply incl_filter]).
    assert (H2 : RInv (if is_connect (sus_request p)
                       then with_connected true
                               (with_link true (with_pending (filter keep (pending s)) s))
                       else with_pending (filter keep (pending s)) s))
      by (destruct (is_connect _); [apply rinv_with_connected, rinv_with_link|]; exact H1).
    destruct (announces_emit_all known _ H2)
      as (new & newp & newc & Et & Ep & _ & Fn & Fp & Tm & Nt & _).
    set (s3 := fold_left (fun s' d => emit_deviceadded d s') known _) in *.
    pose proof (stop_scanning_no_dispatch new Fn) as Dn.
    pose proof (stop_scanning_no_action newp Fp) as Pn.
    pose proof (parked_actions_filter_le keep (pending s)) as Hle.
    assert (E3 : dispatches (trace s3) = 0 /\ parked_actions (pending s3) = 0
                 /\ timers s3 = [] /\ next_timer s3 = 0).
    { rewrite Et, Ep, Tm, Nt, dispatches_app, parked_actions_app.
      destruct (is_connect (sus_request p)); simpl; repeat split; auto; tally. }
    clearbody s3. destruct E3 as (D3 & P3 & T3 & N3).
    destruct p as [pid po pr pk pc]. unfold runtime_parked_ok in Hk. simpl in Hk, Hna.
    destruct pr as [url| | |dv v|dl pos dur|ds]; try discriminate; simpl in Hk.
    + destruct Hk as (-> & -> & _). simpl.
      rewrite dispatches_app, parked_actions_app. simpl. repeat split; auto; tally.
    + destruct Hk as (_ & -> & _). cbn [sus_owner sus_then exec].
      destruct po; simpl; auto.
    + destruct Hk as (_ & -> & _). cbn [sus_owner sus_then exec].
      destruct po; simpl; auto.
    + destruct Hk as (_ & -> & _). cbn [sus_owner sus_then exec].
      destruct po; simpl; auto.
  - destruct (find (waits_for id) (pending s)) as [p|] eqn:Ef; [|auto].
    pose proof (rfound_parked id s p HI Ef) as Hk.
    set (keep := fun q => negb (waits_for id q)).
    pose proof (parked_actions_filter_le keep (pending s)) as Hle.
    assert (Hp' : parked_actions (filter keep (pending s)) = 0) by lia.
    destruct (sus_catch p) as [h|] eqn:Ec.
    + unfold runtime_parked_ok in Hk. destruct (sus_request p);
        try contradiction;
        try (destruct Hk as (_ & _ & Hk); congruence);
        try (destruct Hk as (_ & _ & Hk & _); congruence).
      destruct Hk as (-> & _ & Hh). rewrite Ec in Hh. inversion Hh; subst h.
      simpl. rewrite dispatches_app. simpl. repeat split; auto; tally.
    + destruct (sus_owner p); simpl; auto.
  - destruct (announces_emit d s HI)
      as (new & newp & newc & Et & Ep & _ & Fn & Fp & Tm & Nt & _).
    pose proof (stop_scanning_no_dispatch new Fn) as Dn.
    pose proof (stop_scanning_no_action newp Fp) as Pn.
    rewrite Et, Ep, Tm, Nt, dispatches_app, parked_actions_app.
    repeat split; auto; tally.
  - unfold emit_scanningfinished. destruct (link s); [|auto].
    rewrite (rinv_scanningfinished s HI). simpl. rewrite dispatches_app. simpl.
    repeat split; auto; tally.
  - auto.
  - rewrite Ht. simpl. auto.
  - auto.
  - destruct (existsb _ _); simpl; auto.
Qed.

Lemma untouched_steps (sched : list event) (s : state) :
  RInv s -> untouched s ->
  forallb (fun e => negb (is_click e)) sched = true -> untouched (steps sched s).
Proof.
  revert s. induction sched as [|e sched IH]; intros s HI Hu Hq; simpl in *.
  - exact Hu.
  - apply andb_prop in Hq. destruct Hq as (He & Hq).
    apply IH; [now apply rstep_ok | | exact Hq].
    apply untouched_step; auto. destruct (is_click e); [discriminate | reflexivity].
Qed.

(** X11: [lovetownRuntime] commands nothing by itself.  In a session in which
    no anchor is clicked, whatever devices are announced and whatever the
    server answers, no action command is sent or waits, and no timer is ever
    armed. *)
Theorem runtime_waits_for_a_click
    (new_URL : string -> option string) (address : string) (sched : list event) :
  forallb (fun e => negb (is_click e)) sched = true ->
  let s := run (lovetownRuntime new_URL address) sched in
  dispatches (trace s) = 0 /\ parked_actions (pending s) = 0 /\ timers s = []
  /\ next_timer s = 0.
Proof.
  intros Hq s. subst s. unfold run.
  destruct (new_URL address) as [url|] eqn:E.
  - apply untouched_steps; [| |exact Hq];
      rewrite (runtime_boot_connecting new_URL address url E).
    + constructor; simpl; auto.
      * constructor; [|constructor]. unfold runtime_parked_ok. simpl. auto.
      * constructor; [|constructor]. exact I.
      * constructor; [|constructor]. simpl. lia.
    + unfold untouched. simpl. auto.
  - unfold lovetownRuntime. rewrite E.
    change (exec Main (Throw invalid_url) init)
      with (settle Main (Rejected invalid_url) init).
    assert (Hdead : dead (settle Main (Rejected invalid_url) init))
      by (unfold dead; simpl; auto).
    destruct (dead_steps sched _ Hdead) as ((_ & Hp & Ht & _) & Etr & _ & Hn & _).
    rewrite Etr, Hp, Ht, Hn. simpl. auto.
Qed.

Lemma runtime_waits_for_a_click_witness :
  let s := run (lovetownRuntime sample_URL intiface)
               [DomChanged [7; 8]; Resolved 0 [toy; gamepad]; DeviceAdded toy2;
                Resolved 1 []; Tick 5000; ScanningFinished; TimerFired 0] in
  dispatches (trace s) = 0 /\ parked_actions (pending s) = 0 /\ timers s = []
  /\ next_timer s = 0.
Proof.
  exact (runtime_waits_for_a_click sample_URL intiface
           [DomChanged [7; 8]; Resolved 0 [toy; gamepad]; DeviceAdded toy2;
            Resolved 1 []; Tick 5000; ScanningFinished; TimerFired 0] eq_refl).
Defined.

(** ** The click handler's timer, and a failed connection *)

(** X12: in a [lovetownRuntime] session, when the server accepts the
    [vibrate(1)] of a click handler, the same turn arms one timer of 3000
    milliseconds whose callback sends [stop] to the same device, and the
    handler sends nothing more (it does not stop the scan); when the server
    rejects it, no timer is armed, nothing is logged or sent, and the error is
    left unhandled. *)
Theorem runtime_stop_timer
    (new_URL : string -> option string) (address : string) (sched : list event)
    (id : nat) (p : suspended) (d : ButtplugClientDevice) (speed : vibrate_value) :
  let s := run (lovetownRuntime new_URL address) sched in
  find (waits_for id) (pending s) = Some p ->
  sus_request p = Vibrate d speed ->
  (forall known,
      timers (step (Resolved id known) s)
      = timers s ++ [{| timer_id := next_timer s; armed_at := clock s;
                        delay := 3000; callback := stop_callback d |}])
  /\ trace (step (Resolved id []) s) = trace s
  /\ (forall e,
        let s' := step (Failed id e) s in
        unhandled s' = unhandled s ++ [e] /\ trace s' = trace s
        /\ timers s' = timers s).
Proof.
  intros s Hf Hr.
  pose proof (runtime_session new_URL address sched) as H. fold s in H.
  cbv zeta in H. destruct H as [(_ & (_ & Hp & _) & _)|(url & _ & HI)].
  - rewrite Hp in Hf. discriminate.
  - pose proof (rfound_parked id s p HI Hf) as Hk. unfold runtime_parked_ok in Hk.
    rewrite Hr in Hk. destruct Hk as (Ho & Hth & Hc & _).
    split; [|split].
    + intros known. simpl. rewrite Hf, Hr, Ho, Hth. simpl.
      set (s1 := with_pending (filter (fun q => negb (waits_for id q)) (pending s)) s).
      assert (H1 : RInv s1)
        by (apply rinv_with_pending; [exact HI | apply incl_filter]).
      destruct (announces_emit_all known s1 H1)
        as (new & newp & newc & _ & _ & _ & _ & _ & Tm & Nt & Ck & _).
      rewrite Tm, Nt, Ck. reflexivity.
    + simpl. rewrite Hf, Hr, Ho, Hth. reflexivity.
    + intros e. simpl. rewrite Hf, Hc, Ho. simpl. auto.
Qed.

Lemma runtime_stop_timer_witness :
  let s := run (lovetownRuntime sample_URL intiface)
               [DomChanged [7]; Resolved 0 [toy]; Tick 10; Clicked 7] in
  (forall known,
      timers (step (Resolved 3 known) s)
      = timers s ++ [{| timer_id := next_timer s; armed_at := clock s;
                        delay := 3000; callback := stop_callback toy |}])
  /\ trace (step (Resolved 3 []) s) = trace s
  /\ (forall e,
        let s' := step (Failed 3 e) s in
        unhandled s' = unhandled s ++ [e] /\ trace s' = trace s
        /\ timers s' = timers s).
Proof.
  exact (runtime_stop_timer sample_URL intiface
           [DomChanged [7]; Resolved 0 [toy]; Tick 10; Clicked 7] 3
           {| sus_id := 3; sus_owner := Callback;
              sus_request := Vibrate toy (Speed 1);
              sus_then := after_click toy; sus_catch := None |}
           toy (Speed 1) eq_refl eq_refl).
Defined.

(** *** The connection attempt of [lovetownRuntime] fails *)














(** X14: in every [lovetownRuntime] session too, the [scanningfinished]
    notification only logs ["Scanning Finished"], once, on a client whose
    socket is open: it registers no handler, sends nothing and arms
    nothing. *)
Theorem runtime_scanning_finished
    (new_URL : string -> option string) (address : string) (sched : list event) :
  let s := run (lovetownRuntime new_URL address) sched in
  step ScanningFinished s
  = if link s then observe (Logged "Scanning Finished") s else s.
Proof.
  intros s. simpl. unfold emit_scanningfinished.
  destruct (link s) eqn:El; [|reflexivity].
  pose proof (runtime_session new_URL address sched) as H. fold s in H.
  cbv zeta in H. destruct H as [(_ & (Hl & _) & _)|(url & _ & HI)].
  - congruence.
  - rewrite (rinv_scanningfinished s HI). reflexivity.
Qed.
